(** * Local MCP tool bridge (mcporter) and default client tool catalog

    A shallow embedding of [src/agents/mcp-local-tools.ts] (the subprocess
    bridge: [isPlainObject], [resolveMcporterCommand], [runMcporterCall],
    [toLocalMcpToolDefinitions]) and of the default client tools loader
    ([isClientToolDefinitionArray], [loadDefaultClientTools],
    [clearDefaultClientToolsCache]).

    Conventions.
    - A JavaScript string is the list of its UTF-16 code units.
    - A thrown exception, a promise that stays pending and a fulfilled
      promise are the three constructors of [completion]; log calls are
      collected next to it.
    - The child process is the environment: it is a list of events that the
      runtime offers to the handlers installed by [runMcporterCall]. *)

From Stdlib Require Import List ZArith NArith Bool Lia String Ascii.
From Stdlib Require Import DecimalString PrimFloat.
Import ListNotations.
Open Scope Z_scope.

(** ** JavaScript strings *)

Module Js.

Definition jsstring : Type := list N.

(** A string literal of the source, read as code units. *)
Definition lit (s : string) : jsstring :=
  map N_of_ascii (list_ascii_of_string s).

Fixpoint eqb (a b : jsstring) : bool :=
  match a, b with
  | [], [] => true
  | x :: a', y :: b' => N.eqb x y && eqb a' b'
  | _, _ => false
  end.

(** [s.length] *)
Definition length (s : jsstring) : Z := Z.of_nat (List.length s).

(** The clamping of a relative index done by [String.prototype.slice]. *)
Definition clamp (len i : Z) : Z :=
  if i <? 0 then Z.max (len + i) 0 else Z.min i len.

(** [s.slice(from, to)] *)
Definition slice (s : jsstring) (from to : Z) : jsstring :=
  let len := length s in
  let k := clamp len from in
  let f := clamp len to in
  firstn (Z.to_nat (f - k)) (skipn (Z.to_nat k) s).

(** WhiteSpace and LineTerminator code points of ECMAScript, the ones
    [String.prototype.trim] strips. *)
Definition is_white_space (c : N) : bool :=
  existsb (N.eqb c)
    [9; 10; 11; 12; 13; 32; 160; 5760; 8232; 8233; 8239; 8287; 12288; 65279]%N
  || (N.leb 8192 c && N.leb c 8202).

Fixpoint trimStart (s : jsstring) : jsstring :=
  match s with
  | [] => []
  | c :: r => if is_white_space c then trimStart r else s
  end.

Definition trimEnd (s : jsstring) : jsstring := rev (trimStart (rev s)).

(** [s.trim()] *)
Definition trim (s : jsstring) : jsstring := trimEnd (trimStart s).

(** The line feed. *)
Definition newline : jsstring := [10%N].

(** Truthiness of a string: only the empty string is falsy. *)
Definition truthy (s : jsstring) : bool :=
  match s with [] => false | _ :: _ => true end.

(** [a || b] on strings. *)
Definition or_else (a b : jsstring) : jsstring := if truthy a then a else b.

(** [String(n)] for an integral number. *)
Definition of_int (z : Z) : jsstring := lit (NilZero.string_of_int (Z.to_int z)).

(** [String(v)] for [v : number | null]. *)
Definition of_code (c : option Z) : jsstring :=
  match c with
  | Some z => of_int z
  | None => lit "null"
  end.

End Js.

Abbreviation jsstring := Js.jsstring.
Abbreviation lit := Js.lit.

(** ** JavaScript values *)

#[warnings="-register-all"]
Inductive value : Type :=
  | VUndefined
  | VNull
  | VBool (b : bool)
  | VNum (n : float)
  | VStr (s : jsstring)
  | VArr (items : list value)
  | VObj (props : list (jsstring * value)).

(** [typeof v] *)
Definition typeof (v : value) : jsstring :=
  match v with
  | VUndefined => lit "undefined"
  | VNull => lit "object"
  | VBool _ => lit "boolean"
  | VNum _ => lit "number"
  | VStr _ => lit "string"
  | VArr _ => lit "object"
  | VObj _ => lit "object"
  end.

Definition isArray (v : value) : bool :=
  match v with VArr _ => true | _ => false end.

Definition is_null (v : value) : bool :=
  match v with VNull => true | _ => false end.

(** ToBoolean. *)
Definition truthy (v : value) : bool :=
  match v with
  | VUndefined | VNull => false
  | VBool b => b
  | VNum n => negb (PrimFloat.eqb n 0 || negb (PrimFloat.eqb n n))
  | VStr s => Js.truthy s
  | VArr _ | VObj _ => true
  end.

(** Property read [o.key] on an object built by [JSON.parse] (no key is
    repeated); [VUndefined] when the property is missing, as for every key
    but [length] and the indices on an array, which the code never reads. *)
Fixpoint lookup (key : jsstring) (props : list (jsstring * value)) : value :=
  match props with
  | [] => VUndefined
  | (k, v) :: rest => if Js.eqb k key then v else lookup key rest
  end.

Definition get (o : value) (key : jsstring) : value :=
  match o with
  | VObj props => lookup key props
  | _ => VUndefined
  end.

(** ** Exceptions, promises and the log *)

(** What a [catch] clause can receive: an [Error] instance, with its [name],
    [message] and (for the errors of the file system) [code]; or a value that
    is not an object, given by its [String(v)] text. *)
Inductive thrown : Type :=
  | ErrorObject (name message : jsstring) (code : option jsstring)
  | ThrownPrimitive (text : jsstring).

(** [err instanceof Error] *)
Definition instanceofError (e : thrown) : bool :=
  match e with ErrorObject _ _ _ => true | ThrownPrimitive _ => false end.

(** [String(err)]: [Error.prototype.toString] for an [Error]. *)
Definition String_of_thrown (e : thrown) : jsstring :=
  match e with
  | ErrorObject name message _ =>
      match name, message with
      | [], _ => message
      | _, [] => name
      | _, _ => name ++ lit ": " ++ message
      end
  | ThrownPrimitive text => text
  end.

(** [err instanceof Error ? err.message : String(err)] *)
Definition error_message (e : thrown) : jsstring :=
  match e with
  | ErrorObject _ message _ => message
  | ThrownPrimitive _ => String_of_thrown e
  end.

(** The calls made to [../logger.js]. *)
Inductive log_entry : Type :=
  | LogDebug (msg : jsstring)
  | LogInfo (msg : jsstring)
  | LogWarn (msg : jsstring)
  | LogError (msg : jsstring).

(** State of the promise returned by an async function. *)
Inductive completion (A : Type) : Type :=
  | Pending
  | Rejected (e : thrown)
  | Fulfilled (a : A).
Arguments Pending {A}.
Arguments Rejected {A} e.
Arguments Fulfilled {A} a.

(** An async computation: what it logged and how its promise ends. *)
Definition M (A : Type) : Type := list log_entry * completion A.

Definition ret {A} (a : A) : M A := ([], Fulfilled a).

Definition throw {A} (e : thrown) : M A := ([], Rejected e).

Definition bind {A B} (m : M A) (k : A -> M B) : M B :=
  match snd m with
  | Fulfilled a => let r := k a in (fst m ++ fst r, snd r)
  | Rejected e => (fst m, Rejected e)
  | Pending => (fst m, Pending)
  end.

(** [try { m } catch (err) { h err }] *)
Definition try_catch {A} (m : M A) (h : thrown -> M A) : M A :=
  match snd m with
  | Rejected e => let r := h e in (fst m ++ fst r, snd r)
  | _ => m
  end.

Definition log (e : log_entry) : M unit := ([e], Fulfilled tt).

(** A built-in that returns or throws. *)
Definition lift {A} (r : thrown + A) : M A :=
  match r with
  | inl e => throw e
  | inr a => ret a
  end.

Declare Scope js_scope.
Delimit Scope js_scope with js.
Notation "x <- m ;; k" := (bind m (fun x => k))
  (at level 61, m at next level, right associativity) : js_scope.
Notation "m ;; k" := (bind m (fun _ => k))
  (at level 61, right associativity) : js_scope.
Open Scope js_scope.

(** ** What the module imports

    [JSON.parse] and [JSON.stringify] are the built-ins (they return or
    throw); [jsonResult] is imported from [./tools/common.js] and wraps a
    payload into the result type of the agent runtime; [platform] is
    [process.platform]. *)
Class Runtime : Type := {
  AgentToolResult : Type;
  jsonResult : value -> AgentToolResult;
  JSON_parse : jsstring -> thrown + value;
  JSON_stringify : value -> thrown + jsstring;
  platform : jsstring
}.

(** ** mcp-local-tools.ts *)

Definition MCPORTER_CALL_TIMEOUT_MS : Z := 60000.
Definition MCPORTER_MAX_OUTPUT_CHARS : Z := 500000.

Definition isPlainObject (v : value) : bool :=
  Js.eqb (typeof v) (lit "object") && negb (is_null v) && negb (isArray v).

Definition resolveMcporterCommand `{Runtime} : jsstring :=
  if negb (Js.eqb platform (lit "win32")) then lit "mcporter"
  else lit "mcporter.cmd".

(** *** The promise executor of [runMcporterCall] as an event machine *)

(** The value the promise of [runMcporterCall] resolves with. *)
Record outcome : Type := {
  out_stdout : jsstring;
  out_stderr : jsstring;
  out_code : option Z
}.

(** [timer] is [null] or the handle of a timeout that is pending, has run its
    callback, or was cleared. *)
Inductive timer_state : Type :=
  | TimerNull
  | TimerPending
  | TimerFired
  | TimerCleared.

(** The variables the closures of the executor share, the promise they
    resolve, and what they did to the child and the logger. *)
Record call_state : Type := {
  stdout : jsstring;
  stderr : jsstring;
  stdoutTruncated : bool;
  timer : timer_state;
  abortListener : bool;
  kills : nat;
  settled : option outcome;
  logged : list log_entry
}.

(** What the runtime can deliver to the executor's callbacks. *)
Inductive event : Type :=
  | StdoutData (chunk : jsstring)
  | StderrData (chunk : jsstring)
  | TimerExpires
  | AbortFires
  | ChildError (err : thrown)
  | ChildClose (code : option Z).

Definition set_stdout (st : call_state) (v : jsstring) : call_state :=
  {| stdout := v; stderr := stderr st; stdoutTruncated := stdoutTruncated st;
     timer := timer st; abortListener := abortListener st; kills := kills st;
     settled := settled st; logged := logged st |}.

Definition set_stderr (st : call_state) (v : jsstring) : call_state :=
  {| stdout := stdout st; stderr := v; stdoutTruncated := stdoutTruncated st;
     timer := timer st; abortListener := abortListener st; kills := kills st;
     settled := settled st; logged := logged st |}.

Definition set_stdoutTruncated (st : call_state) (v : bool) : call_state :=
  {| stdout := stdout st; stderr := stderr st; stdoutTruncated := v;
     timer := timer st; abortListener := abortListener st; kills := kills st;
     settled := settled st; logged := logged st |}.

Definition set_timer (st : call_state) (v : timer_state) : call_state :=
  {| stdout := stdout st; stderr := stderr st;
     stdoutTruncated := stdoutTruncated st;
     timer := v; abortListener := abortListener st; kills := kills st;
     settled := settled st; logged := logged st |}.

Definition set_abortListener (st : call_state) (v : bool) : call_state :=
  {| stdout := stdout st; stderr := stderr st;
     stdoutTruncated := stdoutTruncated st;
     timer := timer st; abortListener := v; kills := kills st;
     settled := settled st; logged := logged st |}.

(** [child.kill("SIGKILL")] *)
Definition kill (st : call_state) : call_state :=
  {| stdout := stdout st; stderr := stderr st;
     stdoutTruncated := stdoutTruncated st;
     timer := timer st; abortListener := abortListener st; kills := S (kills st);
     settled := settled st; logged := logged st |}.

(** [resolve(o)]: only the first call settles the promise. *)
Definition resolve (st : call_state) (o : outcome) : call_state :=
  {| stdout := stdout st; stderr := stderr st;
     stdoutTruncated := stdoutTruncated st;
     timer := timer st; abortListener := abortListener st; kills := kills st;
     settled := match settled st with Some o' => Some o' | None => Some o end;
     logged := logged st |}.

Definition logError (st : call_state) (msg : jsstring) : call_state :=
  {| stdout := stdout st; stderr := stderr st;
     stdoutTruncated := stdoutTruncated st;
     timer := timer st; abortListener := abortListener st; kills := kills st;
     settled := settled st; logged := logged st ++ [LogError msg] |}.

(** [if (timer) { clearTimeout(timer); }] *)
Definition clearTimer (st : call_state) : call_state :=
  match timer st with
  | TimerPending => set_timer st TimerCleared
  | _ => st
  end.

(** The executor up to the registration of its callbacks. The source reads
    the delay from the constant [MCPORTER_CALL_TIMEOUT_MS]; it is a
    parameter here so that both branches of the guard [> 0] can be run.
    [has_signal] tells whether [params.abortSignal] was given. *)
Definition start (timeout_ms : Z) (has_signal : bool) : call_state :=
  {| stdout := []; stderr := []; stdoutTruncated := false;
     timer := if timeout_ms >? 0 then TimerPending else TimerNull;
     abortListener := has_signal; kills := 0%nat;
     settled := None; logged := [] |}.

(** The callback given to [setTimeout]. *)
Definition onTimeout (timeout_ms : Z) (st : call_state) : call_state :=
  resolve (kill st)
    {| out_stdout := [];
       out_stderr := lit "mcporter call timed out after "
                       ++ Js.of_int timeout_ms ++ lit "ms";
       out_code := None |}.

Definition onData (st : call_state) (chunk : jsstring) (isErr : bool)
  : call_state :=
  let buf := if isErr then stderr st else stdout st in
  let next := buf ++ chunk in
  if Js.length next >? MCPORTER_MAX_OUTPUT_CHARS then
    let st := set_stdoutTruncated st true in
    if isErr then set_stderr st (Js.slice next 0 MCPORTER_MAX_OUTPUT_CHARS)
    else set_stdout st (Js.slice next 0 MCPORTER_MAX_OUTPUT_CHARS)
  else
    if isErr then set_stderr st next
    else set_stdout st next.

(** The ["abort"] listener. *)
Definition onAbort (st : call_state) : call_state := kill st.

(** The ["error"] handler of the child. *)
Definition onError (st : call_state) (err : thrown) : call_state :=
  let st := clearTimer st in
  let st := logError st
    (lit "mcp-local-tools: mcporter spawn error: " ++ String_of_thrown err) in
  resolve st
    {| out_stdout := []; out_stderr := String_of_thrown err; out_code := None |}.

(** The text ["\n[output truncated]"] appended to stderr. *)
Definition truncation_marker : jsstring :=
  Js.newline ++ lit "[output truncated]".

(** The ["close"] handler of the child. *)
Definition onClose (st : call_state) (code : option Z) : call_state :=
  let st := clearTimer st in
  if stdoutTruncated st then
    resolve st
      {| out_stdout := stdout st;
         out_stderr := stderr st ++ truncation_marker;
         out_code := code |}
  else
    resolve st
      {| out_stdout := stdout st; out_stderr := stderr st; out_code := code |}.

(** Delivery of one event. A timeout runs its callback only while it is
    pending, and the abort listener is registered with [once: true]; an event
    that cannot reach its callback leaves the state as it is. *)
Definition deliver (timeout_ms : Z) (st : call_state) (ev : event)
  : call_state :=
  match ev with
  | StdoutData chunk => onData st chunk false
  | StderrData chunk => onData st chunk true
  | TimerExpires =>
      match timer st with
      | TimerPending => onTimeout timeout_ms (set_timer st TimerFired)
      | _ => st
      end
  | AbortFires =>
      if abortListener st then onAbort (set_abortListener st false) else st
  | ChildError err => onError st err
  | ChildClose code => onClose st code
  end.

Definition deliver_all (timeout_ms : Z) (st : call_state) (evs : list event)
  : call_state :=
  fold_left (deliver timeout_ms) evs st.

(** *** [runMcporterCall] *)

Record call_params : Type := {
  toolName : jsstring;
  params : value;
  mcporterConfigPath : jsstring;
  abortSignal : bool
}.

(** What [spawn(cmd, args, { env, cwd })] does: it throws, or it returns a
    child whose life is the list of events delivered to the executor. The
    arguments are the command and the argv array; no shell is involved. *)
Inductive spawn_behaviour : Type :=
  | SpawnThrows (e : thrown)
  | SpawnChild (evs : list event).

Definition spawner : Type := jsstring -> list jsstring -> spawn_behaviour.

(** The first lines of [runMcporterCall]: the argv array. *)
Definition mcporter_args `{Runtime} (p : call_params) : M (list jsstring) :=
  let args := [] in
  let args :=
    if Js.truthy (mcporterConfigPath p)
    then args ++ [lit "--config"; mcporterConfigPath p]
    else args in
  json <- lift (JSON_stringify (params p)) ;;
  ret (args ++ [lit "call"; toolName p; lit "--args"; json]).

(** The promise of the executor once the child's events are delivered. The
    log lists the calls of all the handlers, also of those that ran after the
    promise was settled. *)
Definition promise_of (st : call_state) : M outcome :=
  (logged st,
   match settled st with
   | Some o => Fulfilled o
   | None => Pending
   end).

Definition runMcporterCall `{Runtime} (p : call_params) (spawn : spawner)
  : M outcome :=
  args <- mcporter_args p ;;
  let cmd := resolveMcporterCommand in
  match spawn cmd args with
  | SpawnThrows e => throw e
  | SpawnChild evs =>
      promise_of
        (deliver_all MCPORTER_CALL_TIMEOUT_MS
           (start MCPORTER_CALL_TIMEOUT_MS (abortSignal p)) evs)
  end.

(** *** [toLocalMcpToolDefinitions] *)

(** [code !== 0] for [code : number | null]. *)
Definition code_not_zero (code : option Z) : bool :=
  match code with
  | Some z => negb (z =? 0)
  | None => true
  end.

(** What [execute] does with the outcome once the [await] returns: the rest
    of its [try] block. *)
Definition interpret `{Runtime} (name : jsstring) (o : outcome)
  : M AgentToolResult :=
  if code_not_zero (out_code o) then
    log (LogDebug (lit "mcp-local-tools: " ++ name ++ lit " failed code="
                     ++ Js.of_code (out_code o) ++ lit " stderr="
                     ++ Js.slice (out_stderr o) 0 500)) ;;
    ret (jsonResult (VObj
      [(lit "error", VBool true);
       (lit "message",
        VStr (Js.or_else (Js.trim (out_stderr o))
                (lit "mcporter call exited with code "
                   ++ Js.of_code (out_code o))));
       (lit "stdout", VStr (Js.slice (out_stdout o) 0 2000))]))
  else
    let trimmed := Js.trim (out_stdout o) in
    if negb (Js.truthy trimmed) then
      ret (jsonResult (VObj [(lit "result", VNull); (lit "raw", VStr [])]))
    else
      try_catch
        (parsed <- lift (JSON_parse trimmed) ;;
         ret (jsonResult parsed))
        (fun _ =>
           ret (jsonResult (VObj [(lit "result", VStr trimmed);
                                  (lit "raw", VStr trimmed)]))).

(** The [execute] closure of the tool [name]; [signal] tells whether an
    [AbortSignal] was passed. *)
Definition execute `{Runtime} (name mcporterConfigPath : jsstring)
    (spawn : spawner) (toolCallId : jsstring) (params : value) (signal : bool)
  : M AgentToolResult :=
  let paramsRecord := if isPlainObject params then params else VObj [] in
  try_catch
    (o <- runMcporterCall
            {| toolName := name; params := paramsRecord;
               mcporterConfigPath := mcporterConfigPath;
               abortSignal := signal |} spawn ;;
     interpret name o)
    (fun err =>
       let message := error_message err in
       log (LogError (lit "mcp-local-tools: " ++ name ++ lit " error: "
                        ++ message)) ;;
       ret (jsonResult (VObj [(lit "error", VBool true);
                              (lit "message", VStr message)]))).

Record ClientToolFunction : Type := {
  fn_name : jsstring;
  fn_description : option jsstring;
  fn_parameters : option value
}.

Record ClientToolDefinition : Type := {
  tool_function : ClientToolFunction
}.

Record ToolDefinition `{Runtime} : Type := {
  tool_name : jsstring;
  tool_label : jsstring;
  tool_description : jsstring;
  tool_parameters : value;
  tool_execute : spawner -> jsstring -> value -> bool -> M AgentToolResult
}.

Definition toLocalMcpToolDefinitions `{Runtime}
    (tools : list ClientToolDefinition) (mcporterConfigPath : jsstring)
  : list ToolDefinition :=
  map (fun tool =>
         let func := tool_function tool in
         let name := fn_name func in
         {| tool_name := name;
            tool_label := name;
            tool_description :=
              match fn_description func with Some d => d | None => [] end;
            tool_parameters :=
              match fn_parameters func with Some s => s | None => VObj [] end;
            tool_execute := execute name mcporterConfigPath |})
      tools.

(** ** The default client tools loader *)

Module Catalog.

(** The two module variables [cached] and [cachedPath]. *)
Record cache : Type := {
  cached : option (list value);
  cachedPath : option jsstring
}.

(** The state of a freshly loaded module. *)
Definition empty_cache : cache := {| cached := None; cachedPath := None |}.

(** What a call does to the outside: a read of a file, a log line. *)
Inductive effect : Type :=
  | FsRead (path : jsstring)
  | Logged (e : log_entry).

(** A computation over the module variables that returns or throws. *)
Definition L (A : Type) : Type := cache -> list effect * cache * (thrown + A).

Definition ret {A} (a : A) : L A := fun c => ([], c, inr a).

Definition bind {A B} (m : L A) (k : A -> L B) : L B :=
  fun c =>
    match m c with
    | (fx, c', inr a) =>
        match k a c' with
        | (fx', c'', r) => (fx ++ fx', c'', r)
        end
    | (fx, c', inl e) => (fx, c', inl e)
    end.

Definition try_catch {A} (m : L A) (h : thrown -> L A) : L A :=
  fun c =>
    match m c with
    | (fx, c', inl e) =>
        match h e c' with
        | (fx', c'', r) => (fx ++ fx', c'', r)
        end
    | r => r
    end.

Definition read_cache : L cache := fun c => ([], c, inr c).

Definition set_cached (v : option (list value)) : L unit :=
  fun c => ([], {| cached := v; cachedPath := cachedPath c |}, inr tt).

Definition set_cachedPath (v : option jsstring) : L unit :=
  fun c => ([], {| cached := cached c; cachedPath := v |}, inr tt).

Definition emit (e : effect) : L unit := fun c => ([e], c, inr tt).

Definition logWarn (msg : jsstring) : L unit := emit (Logged (LogWarn msg)).
Definition logInfo (msg : jsstring) : L unit := emit (Logged (LogInfo msg)).

Definition lift {A} (r : thrown + A) : L A := fun c => ([], c, r).

Declare Scope load_scope.
Delimit Scope load_scope with load.
Notation "x <- m ;; k" := (bind m (fun x => k))
  (at level 61, m at next level, right associativity) : load_scope.
Notation "m ;; k" := (bind m (fun _ => k))
  (at level 61, right associativity) : load_scope.

Definition isClientToolDefinitionArray (v : value) : bool :=
  match v with
  | VArr items =>
      forallb
        (fun item =>
           if negb (truthy item) || negb (Js.eqb (typeof item) (lit "object"))
           then false
           else
             let f := get item (lit "function") in
             truthy f && Js.eqb (typeof f) (lit "object")
             && Js.eqb (typeof (get f (lit "name"))) (lit "string"))
        items
  | _ => false
  end.

(** The part of [OpenClawConfig] the loader reads. *)
Record GatewayConfig : Type := {
  defaultClientToolsPath : option jsstring
}.

Record OpenClawConfig : Type := {
  gateway : option GatewayConfig
}.

(** What the loader reads from the process: the environment variable
    [OPENCLAW_DEFAULT_CLIENT_TOOLS_PATH] and the file system seen by
    [fs.readFile(path, "utf8")]. *)
Record world : Type := {
  env_path : option jsstring;
  readFile : jsstring -> thrown + jsstring
}.

(** [a?.trim() || b] *)
Definition trimmed_or (a : option jsstring) (b : jsstring) : jsstring :=
  match a with
  | Some s => Js.or_else (Js.trim s) b
  | None => b
  end.

Definition resolve_path (cfg : OpenClawConfig) (w : world) : jsstring :=
  trimmed_or
    (match gateway cfg with
     | Some g => defaultClientToolsPath g
     | None => None
     end)
    (trimmed_or (env_path w) (lit "/app/config/default-client-tools.json")).

(** [cachedPath === path] *)
Definition same_path (cp : option jsstring) (path : jsstring) : bool :=
  match cp with
  | Some p => Js.eqb p path
  | None => false
  end.

(** [xs.length > 0 ? xs : undefined] *)
Definition non_empty (xs : list value) : option (list value) :=
  match xs with
  | [] => None
  | _ :: _ => Some xs
  end.

(** The [code] computed by the [catch] clause. *)
Definition error_code (e : thrown) : jsstring :=
  match e with
  | ErrorObject _ _ (Some c) => c
  | _ => []
  end.

Definition items_of (v : value) : list value :=
  match v with
  | VArr items => items
  | _ => []
  end.

Definition loadDefaultClientTools `{Runtime} (cfg : OpenClawConfig) (w : world)
  : L (option (list value)) :=
  (let path := resolve_path cfg w in
   c <- read_cache ;;
   match same_path (cachedPath c) path, cached c with
   | true, Some xs => ret (non_empty xs)
   | _, _ =>
       try_catch
         (emit (FsRead path) ;;
          raw <- lift (readFile w path) ;;
          parsed <- lift (JSON_parse raw) ;;
          if negb (isClientToolDefinitionArray parsed) then
            logWarn (lit "default-client-tools: invalid format at " ++ path
                       ++ lit " (expected array of { function: { name } })") ;;
            set_cachedPath (Some path) ;;
            set_cached (Some []) ;;
            ret None
          else
            set_cachedPath (Some path) ;;
            set_cached (Some (items_of parsed)) ;;
            let out := non_empty (items_of parsed) in
            match out with
            | Some xs =>
                logInfo (lit "default-client-tools: loaded "
                           ++ Js.of_int (Z.of_nat (List.length xs))
                           ++ lit " tools from "
                           ++ path)
            | None => ret tt
            end ;;
            ret out)
         (fun err =>
            let code := error_code err in
            logWarn (lit "default-client-tools: failed to load " ++ path
                       ++ lit ": " ++ Js.or_else code (error_message err)) ;;
            set_cachedPath (Some path) ;;
            set_cached (Some []) ;;
            ret None)
   end)%load.

Definition clearDefaultClientToolsCache : L unit :=
  (set_cached None ;;
   set_cachedPath None)%load.

End Catalog.

(** ** Invariants of the event machine *)

(** Both buffers are within the budget. *)
Definition bounded (st : call_state) : Prop :=
  Js.length (stdout st) <= MCPORTER_MAX_OUTPUT_CHARS
  /\ Js.length (stderr st) <= MCPORTER_MAX_OUTPUT_CHARS.

(** The timer is pending exactly as long as it is needed: a pending timer
    means the promise is not settled, and (when a timer was armed at all) an
    unsettled promise still has its timer pending. *)
Definition timer_inv (timeout_ms : Z) (st : call_state) : Prop :=
  (timer st = TimerPending -> settled st = None)
  /\ (0 < timeout_ms -> settled st = None -> timer st = TimerPending)
  /\ (timeout_ms <= 0 -> timer st = TimerNull).


(** ** The output accumulator of the specification

    The specification describes one accumulator per stream, each with its
    own truncation flag. It is kept apart from the code above, to be
    compared with it. *)

Record accumulator : Type := {
  buffer : jsstring;
  truncated : bool
}.

Definition empty_accumulator : accumulator :=
  {| buffer := []; truncated := false |}.

Definition append (a : accumulator) (chunk : jsstring) : accumulator :=
  let next := buffer a ++ chunk in
  if Js.length next >? MCPORTER_MAX_OUTPUT_CHARS then
    {| buffer := Js.slice next 0 MCPORTER_MAX_OUTPUT_CHARS; truncated := true |}
  else
    {| buffer := next; truncated := truncated a |}.

(** The accumulator of a stream after the events of a call: it sees the
    chunks of its own stream only. *)
Definition feed (isErr : bool) (a : accumulator) (ev : event) : accumulator :=
  match ev, isErr with
  | StdoutData chunk, false => append a chunk
  | StderrData chunk, true => append a chunk
  | _, _ => a
  end.

Definition accumulated (isErr : bool) (evs : list event) : accumulator :=
  fold_left (feed isErr) evs empty_accumulator.

(** A chunk of [n] letters ["a"]. *)
Definition letters (n : Z) : jsstring := repeat 97%N (Z.to_nat n).

(** ** A runtime for the examples

    Its [JSON.parse] and [JSON.stringify] know the few texts the examples
    use, and its [jsonResult] is the payload itself. *)

Definition quote : jsstring := [34%N].

(** The text [{"a":1}]. *)
Definition text_a1 : jsstring :=
  lit "{" ++ quote ++ lit "a" ++ quote ++ lit ":1}".

(** The text [[{"function":{"name":"search"}}]]. *)
Definition text_tools : jsstring :=
  lit "[{" ++ quote ++ lit "function" ++ quote ++ lit ":{" ++ quote
    ++ lit "name" ++ quote ++ lit ":" ++ quote ++ lit "search" ++ quote
    ++ lit "}}]".

Definition search_tool : value :=
  VObj [(lit "function", VObj [(lit "name", VStr (lit "search"))])].

Definition example_parse (s : jsstring) : thrown + value :=
  if Js.eqb s text_a1 then inr (VObj [(lit "a", VNum 1)])
  else if Js.eqb s (lit "[]") then inr (VArr [])
  else if Js.eqb s (lit "{}") then inr (VObj [])
  else if Js.eqb s text_tools then inr (VArr [search_tool])
  else inl (ErrorObject (lit "SyntaxError") (lit "Unexpected token") None).

Definition example_stringify (v : value) : thrown + jsstring :=
  match v with
  | VObj [] => inr (lit "{}")
  | VObj [(k, VNum n)] =>
      if Js.eqb k (lit "a") && PrimFloat.eqb n 1 then inr text_a1
      else inl (ErrorObject (lit "TypeError") (lit "unsupported value") None)
  | _ => inl (ErrorObject (lit "TypeError") (lit "unsupported value") None)
  end.

Definition example_runtime : Runtime :=
  {| AgentToolResult := value;
     jsonResult := fun payload => payload;
     JSON_parse := example_parse;
     JSON_stringify := example_stringify;
     platform := lit "linux" |}.

(** ** Reading aids for the loader *)

(** An entry of a valid catalog, in the words of the specification: an
    object with a nested [function.name] string. *)
Definition tool_shaped (item : value) : Prop :=
  exists props fprops s,
    item = VObj props
    /\ lookup (lit "function") props = VObj fprops
    /\ lookup (lit "name") fprops = VStr s.

(** The request finds no entry for [path] in the cache. *)
Definition cache_miss (c : Catalog.cache) (path : jsstring) : Prop :=
  Catalog.same_path (Catalog.cachedPath c) path = false
  \/ Catalog.cached c = None.

(** The list a load stores for a path when it reads the file. *)
Definition stored (R : Runtime) (w : Catalog.world) (path : jsstring)
  : list value :=
  match Catalog.readFile w path with
  | inl _ => []
  | inr raw =>
      match JSON_parse raw with
      | inl _ => []
      | inr parsed =>
          if Catalog.isClientToolDefinitionArray parsed
          then Catalog.items_of parsed else []
      end
  end.


(** ** File systems for the examples *)

Definition enoent : thrown :=
  ErrorObject (lit "Error") (lit "ENOENT: no such file or directory")
    (Some (lit "ENOENT")).

(** No file at all, and no environment variable. *)
Definition world_without_file : Catalog.world :=
  {| Catalog.env_path := None; Catalog.readFile := fun _ => inl enoent |}.

(** Every path holds the text [content]. *)
Definition world_with_file (content : jsstring) : Catalog.world :=
  {| Catalog.env_path := None; Catalog.readFile := fun _ => inr content |}.

Definition config_default : Catalog.OpenClawConfig :=
  {| Catalog.gateway := None |}.

Definition config_path (path : jsstring) : Catalog.OpenClawConfig :=
  {| Catalog.gateway := Some {| Catalog.defaultClientToolsPath := Some path |} |}.

(** Unfolds the handlers of the event machine. *)
Ltac handler :=
  unfold deliver, onData, onTimeout, onAbort, onError, onClose, clearTimer,
    resolve, kill, logError, set_stdout, set_stderr, set_stdoutTruncated,
    set_timer, set_abortListener in *; simpl in *.


(** A child that prints [out] and exits with [code], whatever it is asked. *)
Definition child_printing (out : jsstring) (code : Z) : spawner :=
  fun _ _ => SpawnChild [StdoutData out; ChildClose (Some code)].

Fixpoint argv_eqb (a b : list jsstring) : bool :=
  match a, b with
  | [], [] => true
  | x :: a', y :: b' => Js.eqb x y && argv_eqb a' b'
  | _, _ => false
  end.

(** A child that is started only with the argv [expected]. *)
Definition child_expecting (expected : list jsstring) : spawner :=
  fun _ args =>
    if argv_eqb args expected
    then SpawnChild [StdoutData (lit "{}"); ChildClose (Some 0)]
    else SpawnThrows (ThrownPrimitive (lit "unexpected argv")).

(** ** Reading aids for the event machine *)

(** Everything the child wrote on a stream, in the order of the events. *)
Definition stream_text (isErr : bool) (evs : list event) : jsstring :=
  flat_map
    (fun ev =>
       match ev, isErr with
       | StdoutData chunk, false => chunk
       | StderrData chunk, true => chunk
       | _, _ => []
       end)
    evs.

(** The timeout callback has run. *)
Definition timer_fired (st : call_state) : bool :=
  match timer st with
  | TimerFired => true
  | _ => false
  end.

(** The abort listener has run. *)
Definition abort_fired (has_signal : bool) (st : call_state) : bool :=
  has_signal && negb (abortListener st).

(** Unfolds the operations of the promise monad [M]. *)
Ltac promise_ops := unfold try_catch, bind, ret, throw, lift, log in *.

(** ** Reading aids for lists and the cache *)

(** The list without its longest prefix of elements that satisfy [p]. *)
Fixpoint dropWhile {A} (p : A -> bool) (l : list A) : list A :=
  match l with
  | [] => []
  | x :: r => if p x then dropWhile p r else l
  end.

(** The list without its longest suffix of elements that satisfy [p]. *)
Definition dropWhileEnd {A} (p : A -> bool) (l : list A) : list A :=
  rev (dropWhile p (rev l)).

(** A call of one of the two exported functions of the loader. *)
Inductive cache_op : Type :=
  | CallLoad (cfg : Catalog.OpenClawConfig) (w : Catalog.world)
  | CallClear.

Definition cache_after (R : Runtime) (c : Catalog.cache) (op : cache_op)
  : Catalog.cache :=
  match op with
  | CallLoad cfg w => snd (fst (Catalog.loadDefaultClientTools cfg w c))
  | CallClear => snd (fst (Catalog.clearDefaultClientToolsCache c))
  end.

(** The module variables after a sequence of calls on a fresh module. *)
Definition cache_history (R : Runtime) (ops : list cache_op) : Catalog.cache :=
  fold_left (cache_after R) ops Catalog.empty_cache.

(** What the loader keeps in [cached] is a list of tool-shaped entries. *)
Definition cache_ok (c : Catalog.cache) : Prop :=
  match Catalog.cached c with
  | Some xs => Forall tool_shaped xs
  | None => True
  end.

(** ** ui/controllers/agents.ts *)

Module Ui.

(** [String.prototype.toLowerCase] is the built-in: the Unicode lower-case
    mapping of a string. *)
Class Casing : Type := {
  toLowerCase : jsstring -> jsstring
}.

(** [[a-z0-9]] *)
Definition is_slug_char (c : N) : bool :=
  (N.leb 97 c && N.leb c 122) || (N.leb 48 c && N.leb c 57).

Definition dash : N := 45%N.

Definition is_dash (c : N) : bool := N.eqb c dash.

(** [s.replace(/[^a-z0-9]+/g, "-")]: every maximal run of other code units
    becomes one dash; [in_run] tells that the run was already replaced. *)
Fixpoint replace_runs (in_run : bool) (s : jsstring) : jsstring :=
  match s with
  | [] => []
  | c :: r =>
      if is_slug_char c then c :: replace_runs false r
      else if in_run then replace_runs true r
      else dash :: replace_runs true r
  end.

(** [s.replace(/^-+|-+$/g, "")] *)
Definition strip_dashes (s : jsstring) : jsstring :=
  dropWhileEnd is_dash (dropWhile is_dash s).

Definition toWorkspaceSlug `{Casing} (name : jsstring) : jsstring :=
  let slug :=
    Js.slice (strip_dashes (replace_runs false (toLowerCase name))) 0 48 in
  Js.or_else slug (lit "agent").

(** *** The gateway client and the controller state *)

(** The fields of [AgentsListResult] and of its entries that the controller
    reads, next to the rest of the data. *)
Record AgentEntry : Type := {
  entry_id : jsstring;
  entry_data : value
}.

Record AgentsListResult : Type := {
  defaultId : option jsstring;
  agents : list AgentEntry;
  list_data : value
}.

(** [client.request<T>(method, params)]: the gateway is the environment; it
    answers each method with a value of the type of the call site, or
    throws. *)
Record GatewayBrowserClient : Type := {
  request_agents_list : value -> thrown + option AgentsListResult;
  request_agents_create : value -> thrown + value;
  request_tools_catalog : value -> thrown + value;
  request_models_list : value -> thrown + value
}.

Record AgentsState : Type := {
  client : option GatewayBrowserClient;
  connected : bool;
  agentsLoading : bool;
  agentsCreating : option bool;
  agentsError : option jsstring;
  agentsList : option AgentsListResult;
  agentsSelectedId : option jsstring;
  toolsCatalogLoading : bool;
  toolsCatalogError : option jsstring;
  toolsCatalogResult : option value
}.

Definition set_agentsLoading (v : bool) (st : AgentsState) : AgentsState :=
  {| client := client st; connected := connected st; agentsLoading := v;
     agentsCreating := agentsCreating st; agentsError := agentsError st;
     agentsList := agentsList st; agentsSelectedId := agentsSelectedId st;
     toolsCatalogLoading := toolsCatalogLoading st;
     toolsCatalogError := toolsCatalogError st;
     toolsCatalogResult := toolsCatalogResult st |}.

Definition set_agentsCreating (v : option bool) (st : AgentsState)
  : AgentsState :=
  {| client := client st; connected := connected st;
     agentsLoading := agentsLoading st;
     agentsCreating := v; agentsError := agentsError st;
     agentsList := agentsList st; agentsSelectedId := agentsSelectedId st;
     toolsCatalogLoading := toolsCatalogLoading st;
     toolsCatalogError := toolsCatalogError st;
     toolsCatalogResult := toolsCatalogResult st |}.

Definition set_agentsError (v : option jsstring) (st : AgentsState)
  : AgentsState :=
  {| client := client st; connected := connected st;
     agentsLoading := agentsLoading st;
     agentsCreating := agentsCreating st; agentsError := v;
     agentsList := agentsList st; agentsSelectedId := agentsSelectedId st;
     toolsCatalogLoading := toolsCatalogLoading st;
     toolsCatalogError := toolsCatalogError st;
     toolsCatalogResult := toolsCatalogResult st |}.

Definition set_agentsList (v : option AgentsListResult) (st : AgentsState)
  : AgentsState :=
  {| client := client st; connected := connected st;
     agentsLoading := agentsLoading st;
     agentsCreating := agentsCreating st; agentsError := agentsError st;
     agentsList := v; agentsSelectedId := agentsSelectedId st;
     toolsCatalogLoading := toolsCatalogLoading st;
     toolsCatalogError := toolsCatalogError st;
     toolsCatalogResult := toolsCatalogResult st |}.

Definition set_agentsSelectedId (v : option jsstring) (st : AgentsState)
  : AgentsState :=
  {| client := client st; connected := connected st;
     agentsLoading := agentsLoading st;
     agentsCreating := agentsCreating st; agentsError := agentsError st;
     agentsList := agentsList st; agentsSelectedId := v;
     toolsCatalogLoading := toolsCatalogLoading st;
     toolsCatalogError := toolsCatalogError st;
     toolsCatalogResult := toolsCatalogResult st |}.

Definition set_toolsCatalogLoading (v : bool) (st : AgentsState)
  : AgentsState :=
  {| client := client st; connected := connected st;
     agentsLoading := agentsLoading st;
     agentsCreating := agentsCreating st; agentsError := agentsError st;
     agentsList := agentsList st; agentsSelectedId := agentsSelectedId st;
     toolsCatalogLoading := v;
     toolsCatalogError := toolsCatalogError st;
     toolsCatalogResult := toolsCatalogResult st |}.

Definition set_toolsCatalogError (v : option jsstring) (st : AgentsState)
  : AgentsState :=
  {| client := client st; connected := connected st;
     agentsLoading := agentsLoading st;
     agentsCreating := agentsCreating st; agentsError := agentsError st;
     agentsList := agentsList st; agentsSelectedId := agentsSelectedId st;
     toolsCatalogLoading := toolsCatalogLoading st;
     toolsCatalogError := v;
     toolsCatalogResult := toolsCatalogResult st |}.

Definition set_toolsCatalogResult (v : option value) (st : AgentsState)
  : AgentsState :=
  {| client := client st; connected := connected st;
     agentsLoading := agentsLoading st;
     agentsCreating := agentsCreating st; agentsError := agentsError st;
     agentsList := agentsList st; agentsSelectedId := agentsSelectedId st;
     toolsCatalogLoading := toolsCatalogLoading st;
     toolsCatalogError := toolsCatalogError st;
     toolsCatalogResult := v |}.

(** *** Async functions over a mutable state object *)

(** A request sent to the gateway: the method and the params. *)
Definition sent : Type := (jsstring * value)%type.

(** An async function over the state object [S]: the requests it sent, the
    state it leaves, and whether its promise is fulfilled or rejected. *)
Definition T (S A : Type) : Type := S -> list sent * S * (thrown + A).

Definition ret {S A} (a : A) : T S A := fun st => ([], st, inr a).

Definition throw {S A} (e : thrown) : T S A := fun st => ([], st, inl e).

Definition bind {S A B} (m : T S A) (k : A -> T S B) : T S B :=
  fun st =>
    match m st with
    | (rq, st', inr a) =>
        match k a st' with
        | (rq', st'', r) => (rq ++ rq', st'', r)
        end
    | (rq, st', inl e) => (rq, st', inl e)
    end.

(** [try { m } catch (err) { h err }] *)
Definition try_catch {S A} (m : T S A) (h : thrown -> T S A) : T S A :=
  fun st =>
    match m st with
    | (rq, st', inl e) =>
        match h e st' with
        | (rq', st'', r) => (rq ++ rq', st'', r)
        end
    | r => r
    end.

(** [try { m } finally { f }]: [f] runs in both cases and the completion of
    [m] is kept unless [f] throws. *)
Definition try_finally {S A} (m : T S A) (f : T S unit) : T S A :=
  fun st =>
    match m st with
    | (rq, st', r) =>
        match f st' with
        | (rq', st'', inr _) => (rq ++ rq', st'', r)
        | (rq', st'', inl e) => (rq ++ rq', st'', inl e)
        end
    end.

Definition read {S} : T S S := fun st => ([], st, inr st).

Definition modify {S} (f : S -> S) : T S unit := fun st => ([], f st, inr tt).

(** [await c.request(method, params)] on the client read from the state;
    reading [request] from [null] throws a [TypeError]. *)
Definition request {S A} (get_client : S -> option GatewayBrowserClient)
    (method : jsstring) (params : value)
    (endpoint : GatewayBrowserClient -> value -> thrown + A) : T S A :=
  fun st =>
    match get_client st with
    | Some c => ([(method, params)], st, endpoint c params)
    | None =>
        ([], st,
         inl (ErrorObject (lit "TypeError")
                (lit "Cannot read properties of null (reading 'request')")
                None))
    end.

Declare Scope ui_scope.
Delimit Scope ui_scope with ui.
Notation "x <- m ;; k" := (bind m (fun x => k))
  (at level 61, m at next level, right associativity) : ui_scope.
Notation "m ;; k" := (bind m (fun _ => k))
  (at level 61, right associativity) : ui_scope.

(** Truthiness of [string | null]. *)
Definition truthy_id (s : option jsstring) : bool :=
  match s with
  | Some t => Js.truthy t
  | None => false
  end.

(** [entry.id === selected] for [selected : string | null]. *)
Definition id_is (selected : option jsstring) (entry : AgentEntry) : bool :=
  match selected with
  | Some s => Js.eqb (entry_id entry) s
  | None => false
  end.

(** [res.defaultId ?? res.agents[0]?.id ?? null] *)
Definition fallback_id (res : AgentsListResult) : option jsstring :=
  match defaultId res with
  | Some d => Some d
  | None =>
      match agents res with
      | entry :: _ => Some (entry_id entry)
      | [] => None
      end
  end.

(** The guards of [loadAgents] and the two assignments before its [try]:
    [true] when the function goes on to its request. *)
Definition loadAgents_enter : T AgentsState bool :=
  (st <- read ;;
   match client st with
   | None => ret false
   | Some _ =>
       if negb (connected st) then ret false
       else if agentsLoading st then ret false
       else
         modify (set_agentsLoading true) ;;
         modify (set_agentsError None) ;;
         ret true
   end)%ui.

(** The [try]/[catch]/[finally] statement of [loadAgents]. *)
Definition loadAgents_request : T AgentsState unit :=
  (try_finally
     (try_catch
        (res <- request client (lit "agents.list") (VObj [])
                  request_agents_list ;;
         match res with
         | Some res =>
             modify (set_agentsList (Some res)) ;;
             st <- read ;;
             let selected := agentsSelectedId st in
             let known := existsb (id_is selected) (agents res) in
             if negb (truthy_id selected) || negb known then
               modify (set_agentsSelectedId (fallback_id res))
             else ret tt
         | None => ret tt
         end)
        (fun err => modify (set_agentsError (Some (String_of_thrown err)))))
     (modify (set_agentsLoading false)))%ui.

Definition loadAgents : T AgentsState unit :=
  (go <- loadAgents_enter ;;
   if go then loadAgents_request else ret tt)%ui.

(** [...(role?.trim() ? { role: role.trim() } : {})] *)
Definition role_props (role : option jsstring) : list (jsstring * value) :=
  match role with
  | Some r => if Js.truthy (Js.trim r) then [(lit "role", VStr (Js.trim r))]
              else []
  | None => []
  end.

(** [typeof result?.agentId === "string" ? result.agentId : null] *)
Definition created_id (result : value) : option jsstring :=
  match get result (lit "agentId") with
  | VStr s => Some s
  | _ => None
  end.

(** [if (state.agentsCreating)] on the optional boolean. *)
Definition is_creating (st : AgentsState) : bool :=
  match agentsCreating st with
  | Some b => b
  | None => false
  end.

Definition createAgent `{Casing} (name : jsstring) (role : option jsstring)
  : T AgentsState unit :=
  (st <- read ;;
   match client st with
   | None => ret tt
   | Some _ =>
       if negb (connected st) then ret tt
       else
         let trimmed := Js.trim name in
         if negb (Js.truthy trimmed) then
           modify (set_agentsError (Some (lit "Agent name is required.")))
         else if is_creating st then ret tt
         else
           modify (set_agentsCreating (Some true)) ;;
           modify (set_agentsError None) ;;
           try_finally
             (try_catch
                (result <- request client (lit "agents.create")
                             (VObj ([(lit "name", VStr trimmed);
                                     (lit "workspace",
                                      VStr (lit "~/.openclaw/workspace-"
                                              ++ toWorkspaceSlug trimmed))]
                                      ++ role_props role))
                             request_agents_create ;;
                 loadAgents ;;
                 let createdId := created_id result in
                 if truthy_id createdId then
                   modify (set_agentsSelectedId createdId)
                 else ret tt)
                (fun err =>
                   modify (set_agentsError (Some (String_of_thrown err)))))
             (modify (set_agentsCreating (Some false)))
   end)%ui.

(** [agentId ?? state.agentsSelectedId ?? undefined] *)
Definition catalog_agent (agentId selected : option jsstring) : value :=
  match agentId with
  | Some a => VStr a
  | None =>
      match selected with
      | Some s => VStr s
      | None => VUndefined
      end
  end.

Definition loadToolsCatalog (agentId : option jsstring) : T AgentsState unit :=
  (st <- read ;;
   match client st with
   | None => ret tt
   | Some _ =>
       if negb (connected st) then ret tt
       else if toolsCatalogLoading st then ret tt
       else
         modify (set_toolsCatalogLoading true) ;;
         modify (set_toolsCatalogError None) ;;
         try_finally
           (try_catch
              (st <- read ;;
               res <- request client (lit "tools.catalog")
                        (VObj [(lit "agentId",
                                catalog_agent agentId (agentsSelectedId st));
                               (lit "includePlugins", VBool true)])
                        request_tools_catalog ;;
               if truthy res then modify (set_toolsCatalogResult (Some res))
               else ret tt)
              (fun err =>
                 modify (set_toolsCatalogError (Some (String_of_thrown err)))))
           (modify (set_toolsCatalogLoading false))
   end)%ui.

(** *** The chat models controller *)

Record ChatModel : Type := {
  provider : jsstring;
  model_id : jsstring;
  model_name : option jsstring
}.

Record ChatModelsListState : Type := {
  models_client : option GatewayBrowserClient;
  models_connected : bool;
  chatModelsList : option (list ChatModel);
  chatModelsListLoading : bool
}.

Definition set_chatModelsList (v : option (list ChatModel))
    (st : ChatModelsListState) : ChatModelsListState :=
  {| models_client := models_client st;
     models_connected := models_connected st;
     chatModelsList := v;
     chatModelsListLoading := chatModelsListLoading st |}.

Definition set_chatModelsListLoading (v : bool) (st : ChatModelsListState)
  : ChatModelsListState :=
  {| models_client := models_client st;
     models_connected := models_connected st;
     chatModelsList := chatModelsList st;
     chatModelsListLoading := v |}.

(** [typeof v === "string" ? v.trim() : ""] *)
Definition trimmed_string (v : value) : jsstring :=
  match v with
  | VStr s => Js.trim s
  | _ => []
  end.

(** The callback of [raw.map]: [None] stands for [null]. *)
Definition to_chat_model (m : value) : option ChatModel :=
  let provider := trimmed_string (get m (lit "provider")) in
  let id := trimmed_string (get m (lit "id")) in
  if negb (Js.truthy provider) || negb (Js.truthy id) then None
  else
    Some {| provider := provider;
            model_id := id;
            model_name :=
              match get m (lit "name") with
              | VStr s => Some (Js.trim s)
              | _ => None
              end |}.

(** [raw.map(...).filter((m) => m !== null)] *)
Fixpoint chat_models (raw : list value) : list ChatModel :=
  match raw with
  | [] => []
  | m :: rest =>
      match to_chat_model m with
      | Some model => model :: chat_models rest
      | None => chat_models rest
      end
  end.

(** [Array.isArray(res?.models) ? res.models : []] *)
Definition raw_models (res : value) : list value :=
  match get res (lit "models") with
  | VArr items => items
  | _ => []
  end.

Definition loadChatModels : T ChatModelsListState unit :=
  (st <- read ;;
   match models_client st with
   | None => ret tt
   | Some _ =>
       if negb (models_connected st) then ret tt
       else if chatModelsListLoading st then ret tt
       else
         modify (set_chatModelsListLoading true) ;;
         try_finally
           (res <- request models_client (lit "models.list") (VObj [])
                     request_models_list ;;
            modify (set_chatModelsList (Some (chat_models (raw_models res)))))
           (modify (set_chatModelsListLoading false))
   end)%ui.

End Ui.

(** ** A casing and a gateway for the examples *)

(** Lower-casing of the ASCII letters; the other code units are kept. *)
Definition example_casing : Ui.Casing :=
  {| Ui.toLowerCase :=
       map (fun c => if N.leb 65 c && N.leb c 90 then (c + 32)%N else c) |}.

(** A code unit the slug keeps or writes. *)
Definition slug_unit (c : N) : Prop := Ui.is_slug_char c = true \/ c = Ui.dash.

(** Unfolds the operations of the async functions of the controllers. *)
Ltac ui_ops :=
  unfold Ui.bind, Ui.ret, Ui.throw, Ui.try_catch, Ui.try_finally, Ui.read,
    Ui.modify, Ui.request in *.

(** The state after the two assignments that precede the request of
    [loadAgents]. *)
Definition agents_in_flight (st : Ui.AgentsState) : Ui.AgentsState :=
  Ui.set_agentsError None (Ui.set_agentsLoading true st).

(** [loadAgents] passes its guards. *)
Definition agents_ready (st : Ui.AgentsState) : bool :=
  match Ui.client st with
  | Some _ => Ui.connected st && negb (Ui.agentsLoading st)
  | None => false
  end.

Definition agent (id : jsstring) : Ui.AgentEntry :=
  {| Ui.entry_id := id; Ui.entry_data := VObj [] |}.

(** A gateway that lists the agents [main] and [helper], creates the agent
    [w-1], and fails on the other methods. *)
Definition example_gateway : Ui.GatewayBrowserClient :=
  {| Ui.request_agents_list := fun _ =>
       inr (Some {| Ui.defaultId := None;
                    Ui.agents := [agent (lit "main"); agent (lit "helper")];
                    Ui.list_data := VObj [] |});
     Ui.request_agents_create := fun _ =>
       inr (VObj [(lit "agentId", VStr (lit "w-1"))]);
     Ui.request_tools_catalog := fun _ =>
       inl (ThrownPrimitive (lit "gateway closed"));
     Ui.request_models_list := fun _ =>
       inr (VObj [(lit "models",
                   VArr [VObj [(lit "provider", VStr (lit " openai "));
                               (lit "id", VStr (lit "gpt"))];
                         VObj [(lit "provider", VStr (lit "  "));
                               (lit "id", VStr (lit "x"))];
                         VNull])]) |}.

(** A gateway that fails on every method with the text [reason]. *)
Definition failing_gateway (reason : jsstring) : Ui.GatewayBrowserClient :=
  {| Ui.request_agents_list := fun _ => inl (ThrownPrimitive reason);
     Ui.request_agents_create := fun _ => inl (ThrownPrimitive reason);
     Ui.request_tools_catalog := fun _ => inl (ThrownPrimitive reason);
     Ui.request_models_list := fun _ => inl (ThrownPrimitive reason) |}.

(** A connected, idle controller state on the gateway [c], with the agent
    [selected] selected. *)
Definition idle_state (c : Ui.GatewayBrowserClient)
    (selected : option jsstring) : Ui.AgentsState :=
  {| Ui.client := Some c; Ui.connected := true;
     Ui.agentsLoading := false; Ui.agentsCreating := None;
     Ui.agentsError := None; Ui.agentsList := None;
     Ui.agentsSelectedId := selected;
     Ui.toolsCatalogLoading := false; Ui.toolsCatalogError := None;
     Ui.toolsCatalogResult := None |}.

(** The params of the [agents.create] request. *)
Definition create_params (C : Ui.Casing) (name : jsstring)
    (role : option jsstring) : value :=
  VObj ([(lit "name", VStr (Js.trim name));
         (lit "workspace",
          VStr (lit "~/.openclaw/workspace-"
                  ++ Ui.toWorkspaceSlug (Js.trim name)))]
          ++ Ui.role_props role).

(** The state after the two assignments that precede the request of
    [createAgent]. *)
Definition creating (st : Ui.AgentsState) : Ui.AgentsState :=
  Ui.set_agentsError None (Ui.set_agentsCreating (Some true) st).

(** A chat model with a provider and an id that are not empty and carry no
    surrounding white space, and a name, if any, without surrounding white
    space. *)
Definition normal_model (m : Ui.ChatModel) : Prop :=
  Ui.provider m <> [] /\ Ui.model_id m <> []
  /\ Js.trim (Ui.provider m) = Ui.provider m
  /\ Js.trim (Ui.model_id m) = Ui.model_id m
  /\ (forall n, Ui.model_name m = Some n -> Js.trim n = n).

(** A connected, idle chat models state on the gateway [c]. *)
Definition idle_models (c : Ui.GatewayBrowserClient)
    (known : option (list Ui.ChatModel)) : Ui.ChatModelsListState :=
  {| Ui.models_client := Some c; Ui.models_connected := true;
     Ui.chatModelsList := known; Ui.chatModelsListLoading := false |}.
(** * Properties *)

(** ** Strings *)

Lemma length_nonneg (s : jsstring) : 0 <= Js.length s.
Proof. unfold Js.length. lia. Qed.

Lemma length_app (a b : jsstring) :
  Js.length (a ++ b) = Js.length a + Js.length b.
Proof. unfold Js.length. rewrite List.length_app. lia. Qed.

Lemma slice_prefix (s : jsstring) (n : Z) :
  0 <= n -> Js.slice s 0 n = firstn (Z.to_nat n) s.
Proof.
  intros Hn. unfold Js.slice, Js.clamp, Js.length.
  replace (0 <? 0) with false by reflexivity.
  destruct (n <? 0) eqn:E; [apply Z.ltb_lt in E; lia|].
  rewrite (Z.min_l 0) by lia. rewrite Z.sub_0_r. simpl skipn.
  destruct (Z.le_gt_cases n (Z.of_nat (List.length s))) as [Hle|Hgt].
  - rewrite (Z.min_l n) by lia. reflexivity.
  - rewrite (Z.min_r n) by lia. rewrite Nat2Z.id.
    rewrite !firstn_all2 by lia. reflexivity.
Qed.

Lemma length_slice_le (s : jsstring) (n : Z) :
  0 <= n -> Js.length (Js.slice s 0 n) <= n.
Proof.
  intros Hn. rewrite slice_prefix by assumption. unfold Js.length.
  rewrite List.length_firstn. lia.
Qed.

Lemma length_slice_cut (s : jsstring) (n : Z) :
  0 <= n -> n < Js.length s -> Js.length (Js.slice s 0 n) = n.
Proof.
  intros Hn Hlt. rewrite slice_prefix by assumption. unfold Js.length in *.
  rewrite List.length_firstn. lia.
Qed.

Lemma gtb_false (a b : Z) : (a >? b) = false -> a <= b.
Proof. rewrite Z.gtb_ltb. apply Z.ltb_ge. Qed.

Lemma gtb_true (a b : Z) : (a >? b) = true -> b < a.
Proof. rewrite Z.gtb_ltb. apply Z.ltb_lt. Qed.

Lemma max_output_nonneg : 0 <= MCPORTER_MAX_OUTPUT_CHARS.
Proof. unfold MCPORTER_MAX_OUTPUT_CHARS. lia. Qed.

(** ** The event machine of [runMcporterCall] *)

Lemma onData_buffer_bound (st : call_state) (chunk : jsstring) (isErr : bool) :
  Js.length (if isErr then stderr (onData st chunk isErr)
             else stdout (onData st chunk isErr))
  <= MCPORTER_MAX_OUTPUT_CHARS.
Proof.
  pose proof max_output_nonneg as Hmax.
  unfold onData.
  destruct (Js.length _ >? MCPORTER_MAX_OUTPUT_CHARS) eqn:E;
    destruct isErr; simpl;
    try (apply length_slice_le; assumption);
    apply gtb_false in E; assumption.
Qed.

Lemma onData_other_buffer (st : call_state) (chunk : jsstring) :
  stdout (onData st chunk true) = stdout st
  /\ stderr (onData st chunk false) = stderr st.
Proof.
  unfold onData.
  split; destruct (Js.length _ >? MCPORTER_MAX_OUTPUT_CHARS); reflexivity.
Qed.

Lemma onData_bounded (st : call_state) (chunk : jsstring) (isErr : bool) :
  bounded st -> bounded (onData st chunk isErr).
Proof.
  intros [Ho He]. unfold bounded.
  pose proof (onData_buffer_bound st chunk isErr) as Hb.
  destruct (onData_other_buffer st chunk) as [H1 H2].
  destruct isErr.
  - rewrite H1. split; assumption.
  - rewrite H2. split; assumption.
Qed.

Lemma deliver_bounded (t : Z) (st : call_state) (ev : event) :
  bounded st -> bounded (deliver t st ev).
Proof.
  intros Hb. destruct ev; simpl; try (apply onData_bounded; assumption).
  - destruct (timer st); assumption.
  - destruct (abortListener st); assumption.
  - unfold onError, clearTimer. destruct (timer st); assumption.
  - unfold onClose, clearTimer.
    destruct (timer st); simpl; destruct (stdoutTruncated st); assumption.
Qed.

Lemma deliver_all_snoc (t : Z) (st : call_state) (evs : list event) (ev : event) :
  deliver_all t st (evs ++ [ev]) = deliver t (deliver_all t st evs) ev.
Proof. unfold deliver_all. rewrite fold_left_app. reflexivity. Qed.

Lemma deliver_all_app (t : Z) (st : call_state) (evs evs' : list event) :
  deliver_all t st (evs ++ evs') = deliver_all t (deliver_all t st evs) evs'.
Proof. unfold deliver_all. apply fold_left_app. Qed.

(** Induction over the states reached from the start of the executor. *)
Lemma reachable_ind (t : Z) (sig : bool) (P : call_state -> Prop) :
  P (start t sig) ->
  (forall st ev, P st -> P (deliver t st ev)) ->
  forall evs, P (deliver_all t (start t sig) evs).
Proof.
  intros H0 Hstep evs. induction evs as [|ev evs IH] using rev_ind.
  - exact H0.
  - rewrite deliver_all_snoc. apply Hstep. exact IH.
Qed.

Lemma reachable_bounded (t : Z) (sig : bool) (evs : list event) :
  bounded (deliver_all t (start t sig) evs).
Proof.
  apply reachable_ind.
  - pose proof max_output_nonneg. split; simpl; assumption.
  - intros st ev. apply deliver_bounded.
Qed.

Lemma onData_settled (st : call_state) (chunk : jsstring) (isErr : bool) :
  settled (onData st chunk isErr) = settled st
  /\ timer (onData st chunk isErr) = timer st
  /\ kills (onData st chunk isErr) = kills st
  /\ logged (onData st chunk isErr) = logged st.
Proof.
  unfold onData.
  destruct (Js.length _ >? MCPORTER_MAX_OUTPUT_CHARS); destruct isErr;
    repeat split; reflexivity.
Qed.

Lemma deliver_timer_inv (t : Z) (st : call_state) (ev : event) :
  timer_inv t st -> timer_inv t (deliver t st ev).
Proof.
  unfold timer_inv. intros (H1 & H2 & H3).
  destruct ev; simpl.
  - destruct (onData_settled st chunk false) as (-> & -> & _). auto.
  - destruct (onData_settled st chunk true) as (-> & -> & _). auto.
  - destruct st as [so se fl [| | |] al k [o|] lg]; handler;
      intuition congruence.
  - destruct (abortListener st); auto.
  - destruct st as [so se fl [| | |] al k [o|] lg]; handler;
      intuition congruence.
  - destruct st as [so se [|] [| | |] al k [o|] lg]; handler;
      intuition congruence.
Qed.

Lemma reachable_timer_inv (t : Z) (sig : bool) (evs : list event) :
  timer_inv t (deliver_all t (start t sig) evs).
Proof.
  apply reachable_ind.
  - unfold timer_inv, start; simpl.
    destruct (t >? 0) eqn:E; repeat split; intros; try reflexivity;
      try discriminate.
    + apply gtb_true in E. lia.
    + apply gtb_false in E. lia.
  - intros st ev. apply deliver_timer_inv.
Qed.

Lemma accumulated_snoc (isErr : bool) (evs : list event) (ev : event) :
  accumulated isErr (evs ++ [ev]) = feed isErr (accumulated isErr evs) ev.
Proof. unfold accumulated. rewrite fold_left_app. reflexivity. Qed.

(** The buffers of the code are the buffers of the two accumulators, and the
    single flag of the code is the disjunction of their flags. *)
Lemma buffers_refine (t : Z) (sig : bool) (evs : list event) :
  let st := deliver_all t (start t sig) evs in
  stdout st = buffer (accumulated false evs)
  /\ stderr st = buffer (accumulated true evs)
  /\ stdoutTruncated st
     = truncated (accumulated false evs) || truncated (accumulated true evs).
Proof.
  induction evs as [|ev evs IH] using rev_ind.
  - repeat split.
  - rewrite deliver_all_snoc, !accumulated_snoc. simpl in *.
    destruct IH as (Ho & He & Hf).
    set (st := deliver_all t (start t sig) evs) in *.
    destruct ev; simpl.
    + unfold onData, append. rewrite <- Ho.
      destruct (Js.length _ >? MCPORTER_MAX_OUTPUT_CHARS); simpl;
        repeat split; auto.
    + unfold onData, append. rewrite <- He.
      destruct (Js.length _ >? MCPORTER_MAX_OUTPUT_CHARS); simpl;
        repeat split; auto.
      rewrite orb_true_r. reflexivity.
    + destruct st as [so se fl [| | |] al k [o|] lg]; handler; auto.
    + destruct st as [so se fl tm [|] k [o|] lg]; handler; auto.
    + destruct st as [so se fl [| | |] al k [o|] lg]; handler; auto.
    + destruct st as [so se [|] [| | |] al k [o|] lg]; handler; auto.
Qed.

Lemma deliver_flag_stays (t : Z) (st : call_state) (ev : event) :
  stdoutTruncated st = true -> stdoutTruncated (deliver t st ev) = true.
Proof.
  intros Hf. destruct ev; simpl.
  1,2: unfold onData; destruct (Js.length _ >? MCPORTER_MAX_OUTPUT_CHARS);
    simpl; auto.
  - destruct st as [so se fl [| | |] al k [o|] lg]; handler; auto.
  - destruct st as [so se fl tm [|] k [o|] lg]; handler; auto.
  - destruct st as [so se fl [| | |] al k [o|] lg]; handler; auto.
  - destruct st as [so se [|] [| | |] al k [o|] lg]; handler; auto.
Qed.

Lemma deliver_all_flag_stays (t : Z) (evs : list event) (st : call_state) :
  stdoutTruncated st = true -> stdoutTruncated (deliver_all t st evs) = true.
Proof.
  revert st. induction evs as [|ev evs IH]; intros st Hf; simpl.
  - exact Hf.
  - apply IH. apply deliver_flag_stays. exact Hf.
Qed.

Lemma onData_overflow (st : call_state) (chunk : jsstring) (isErr : bool) :
  MCPORTER_MAX_OUTPUT_CHARS
    < Js.length ((if isErr then stderr st else stdout st) ++ chunk) ->
  Js.length (if isErr then stderr (onData st chunk isErr)
             else stdout (onData st chunk isErr))
    = MCPORTER_MAX_OUTPUT_CHARS
  /\ stdoutTruncated (onData st chunk isErr) = true.
Proof.
  intros Hlt. pose proof max_output_nonneg as Hmax. unfold onData.
  destruct (Js.length _ >? MCPORTER_MAX_OUTPUT_CHARS) eqn:E.
  - destruct isErr; simpl; split; try reflexivity;
      apply length_slice_cut; assumption.
  - apply gtb_false in E. exfalso.
    exact (Z.lt_irrefl _ (Z.lt_le_trans _ _ _ Hlt E)).
Qed.

Lemma onClose_unsettled (st : call_state) (code : option Z) :
  settled st = None ->
  settled (onClose st code)
  = Some {| out_stdout := stdout st;
            out_stderr := if stdoutTruncated st
                          then stderr st ++ truncation_marker
                          else stderr st;
            out_code := code |}.
Proof.
  intros Hs.
  destruct st as [so se [|] [| | |] al k [o|] lg]; handler;
    try discriminate; reflexivity.
Qed.

Lemma deliver_settled_stays (t : Z) (st : call_state) (ev : event) (o : outcome) :
  settled st = Some o -> settled (deliver t st ev) = Some o.
Proof.
  intros Hs. destruct ev; simpl.
  - destruct (onData_settled st chunk false) as (-> & _). exact Hs.
  - destruct (onData_settled st chunk true) as (-> & _). exact Hs.
  - destruct st as [so se fl [| | |] al k [o'|] lg]; handler;
      try discriminate; auto.
  - destruct st as [so se fl tm [|] k [o'|] lg]; handler; auto.
  - destruct st as [so se fl [| | |] al k [o'|] lg]; handler;
      try discriminate; auto.
  - destruct st as [so se [|] [| | |] al k [o'|] lg]; handler;
      try discriminate; auto.
Qed.

Lemma deliver_all_settled_stays (t : Z) (evs : list event) (st : call_state)
    (o : outcome) :
  settled st = Some o -> settled (deliver_all t st evs) = Some o.
Proof.
  revert st. induction evs as [|ev evs IH]; intros st Hs; simpl.
  - exact Hs.
  - apply IH. apply deliver_settled_stays. exact Hs.
Qed.

(** Once the promise is settled and no timer is pending, a completion event
    changes nothing but the log line written by the error handler. *)
Lemma completion_after_settled (t : Z) (st : call_state) (o : outcome) :
  settled st = Some o ->
  timer st <> TimerPending ->
  deliver t st TimerExpires = st
  /\ (forall code, deliver t st (ChildClose code) = st)
  /\ (forall err,
        deliver t st (ChildError err)
        = logError st (lit "mcp-local-tools: mcporter spawn error: "
                         ++ String_of_thrown err)).
Proof.
  intros Hs Ht.
  destruct st as [so se [|] [| | |] al k [o'|] lg]; handler;
    try discriminate; try congruence; repeat split; reflexivity.
Qed.

Lemma timeout_unsettled (t : Z) (st : call_state) :
  settled st = None ->
  timer st = TimerPending ->
  let st' := deliver t st TimerExpires in
  kills st' = S (kills st)
  /\ settled st'
     = Some {| out_stdout := [];
               out_stderr := lit "mcporter call timed out after "
                               ++ Js.of_int t ++ lit "ms";
               out_code := None |}.
Proof.
  intros Hs Ht.
  destruct st as [so se fl [| | |] al k [o'|] lg]; handler;
    try discriminate; split; reflexivity.
Qed.

Lemma onError_unsettled (st : call_state) (err : thrown) :
  settled st = None ->
  settled (onError st err)
  = Some {| out_stdout := []; out_stderr := String_of_thrown err;
            out_code := None |}.
Proof.
  intros Hs.
  destruct st as [so se fl [| | |] al k [o'|] lg]; handler;
    try discriminate; reflexivity.
Qed.

Lemma timer_cleared (st : call_state) :
  (forall err, timer (onError st err) <> TimerPending)
  /\ (forall code, timer (onClose st code) <> TimerPending).
Proof.
  split; intros x;
    destruct st as [so se [|] [| | |] al k [o'|] lg]; handler; discriminate.
Qed.

(** ** Claims about the process invoker *)

(** C4: when the timeout elapses while the promise of a call is still
    unsettled (so before the child closed or failed), the callback kills the
    child with SIGKILL and the call resolves with exit code "none" ([None]),
    the timeout message as stderr and an empty stdout, whatever stdout had
    accumulated, and no later event changes that outcome; with a timeout of
    0 no timer exists and the expiry of a timer does nothing in any state
    the call can reach. *)
Theorem C4_timeout_resolution (t : Z) (sig : bool) (evs : list event) :
  let st := deliver_all t (start t sig) evs in
  (0 < t -> settled st = None ->
   let st' := deliver t st TimerExpires in
   kills st' = S (kills st)
   /\ settled st'
      = Some {| out_stdout := [];
                out_stderr := lit "mcporter call timed out after "
                                ++ Js.of_int t ++ lit "ms";
                out_code := None |}
   /\ forall later, settled (deliver_all t st' later) = settled st')
  /\ (t = 0 -> timer st = TimerNull /\ deliver t st TimerExpires = st).
Proof.
  intros st. destruct (reachable_timer_inv t sig evs) as (H1 & H2 & H3).
  fold st in H1, H2, H3. split.
  - intros Ht Hs. specialize (H2 Ht Hs).
    destruct (timeout_unsettled t st Hs H2) as [Hk Hset].
    repeat split; try assumption.
    intros later. rewrite Hset.
    apply deliver_all_settled_stays. exact Hset.
  - intros ->. assert (Hn : timer st = TimerNull) by (apply H3; lia).
    split; [exact Hn|]. simpl. rewrite Hn. reflexivity.
Qed.

Lemma C4_timeout_resolution_witness :
  let t := MCPORTER_CALL_TIMEOUT_MS in
  let st := deliver_all t (start t true) [StdoutData (lit "partial")] in
  0 < t /\ settled st = None /\ stdout st = lit "partial"
  /\ settled (deliver t st TimerExpires)
     = Some {| out_stdout := [];
               out_stderr := lit "mcporter call timed out after 60000ms";
               out_code := None |}
  /\ settled (deliver_all t (deliver t st TimerExpires) [ChildClose None])
     = settled (deliver t st TimerExpires).
Proof.
  pose proof (C4_timeout_resolution MCPORTER_CALL_TIMEOUT_MS true
                [StdoutData (lit "partial")]) as [H _].
  assert (Ht : 0 < MCPORTER_CALL_TIMEOUT_MS) by reflexivity.
  assert (Hs : settled (deliver_all MCPORTER_CALL_TIMEOUT_MS
                          (start MCPORTER_CALL_TIMEOUT_MS true)
                          [StdoutData (lit "partial")]) = None)
    by reflexivity.
  destruct (H Ht Hs) as (_ & Hset & Hlater).
  split; [exact Ht|]. split; [exact Hs|]. split; [reflexivity|].
  split; [exact Hset | exact (Hlater [ChildClose None])].
Defined.

(** C5: a call resolves at most once and the first completion wins. In
    every state a call can reach: a settled promise keeps its outcome under
    every event; once it is settled, a timer expiry and a close event change
    nothing at all and an error event only writes its log line; while it is
    unsettled, each of the three completions (timer expiry, spawn error,
    close) settles it with its own outcome, and the timer is pending so that
    one of them does come; and after the error handler or the close handler
    ran no timer is pending. *)
Theorem C5_single_resolution (t : Z) (sig : bool) (evs : list event) :
  let st := deliver_all t (start t sig) evs in
  (forall o, settled st = Some o ->
     (forall ev, settled (deliver t st ev) = Some o)
     /\ deliver t st TimerExpires = st
     /\ (forall code, deliver t st (ChildClose code) = st)
     /\ (forall err,
           deliver t st (ChildError err)
           = logError st (lit "mcp-local-tools: mcporter spawn error: "
                            ++ String_of_thrown err)))
  /\ (settled st = None ->
      (0 < t ->
       timer st = TimerPending
       /\ settled (deliver t st TimerExpires)
          = Some {| out_stdout := [];
                    out_stderr := lit "mcporter call timed out after "
                                    ++ Js.of_int t ++ lit "ms";
                    out_code := None |})
      /\ (forall err,
            settled (deliver t st (ChildError err))
            = Some {| out_stdout := []; out_stderr := String_of_thrown err;
                      out_code := None |})
      /\ (forall code,
            settled (deliver t st (ChildClose code))
            = Some {| out_stdout := stdout st;
                      out_stderr := if stdoutTruncated st
                                    then stderr st ++ truncation_marker
                                    else stderr st;
                      out_code := code |}))
  /\ (forall err, timer (deliver t st (ChildError err)) <> TimerPending)
  /\ (forall code, timer (deliver t st (ChildClose code)) <> TimerPending).
Proof.
  intros st. destruct (reachable_timer_inv t sig evs) as (H1 & H2 & H3).
  fold st in H1, H2, H3. repeat split.
  - intros ev. apply deliver_settled_stays. assumption.
  - apply (completion_after_settled t st o); [assumption|].
    intros Hp. rewrite (H1 Hp) in H. discriminate.
  - apply (completion_after_settled t st o); [assumption|].
    intros Hp. rewrite (H1 Hp) in H. discriminate.
  - apply (completion_after_settled t st o); [assumption|].
    intros Hp. rewrite (H1 Hp) in H. discriminate.
  - auto.
  - apply (timeout_unsettled t st); auto.
  - intros err. apply onError_unsettled. assumption.
  - intros code. apply onClose_unsettled. assumption.
  - apply (timer_cleared st).
  - apply (timer_cleared st).
Qed.

Lemma C5_single_resolution_witness :
  let t := MCPORTER_CALL_TIMEOUT_MS in
  let st := deliver_all t (start t false)
              [StdoutData (lit "ok"); ChildClose (Some 0)] in
  settled st
  = Some {| out_stdout := lit "ok"; out_stderr := []; out_code := Some 0 |}
  /\ settled (deliver t st (ChildError (ThrownPrimitive (lit "late"))))
     = Some {| out_stdout := lit "ok"; out_stderr := []; out_code := Some 0 |}
  /\ deliver t st TimerExpires = st
  /\ deliver t st (ChildClose (Some 1)) = st.
Proof.
  pose proof (C5_single_resolution MCPORTER_CALL_TIMEOUT_MS false
                [StdoutData (lit "ok"); ChildClose (Some 0)]) as [H _].
  assert (Hs : settled (deliver_all MCPORTER_CALL_TIMEOUT_MS
                          (start MCPORTER_CALL_TIMEOUT_MS false)
                          [StdoutData (lit "ok"); ChildClose (Some 0)])
               = Some {| out_stdout := lit "ok"; out_stderr := [];
                         out_code := Some 0 |})
    by reflexivity.
  destruct (H _ Hs) as (Hkeep & Htimer & Hclose & _).
  split; [exact Hs|].
  split; [exact (Hkeep (ChildError (ThrownPrimitive (lit "late"))))|].
  split; [exact Htimer | exact (Hclose (Some 1))].
Defined.

(** C7, as stated, fails: a chunk of 500,001 characters on stderr sets the
    flag [stdoutTruncated], the only truncation flag of the code, while the
    accumulator of the stdout stream, which received nothing, is not
    truncated. The streams are not flagged independently. *)
Lemma C7_flags_not_independent :
  let evs := [StderrData (letters 500001)] in
  let st := deliver_all MCPORTER_CALL_TIMEOUT_MS
              (start MCPORTER_CALL_TIMEOUT_MS false) evs in
  stdout st = []
  /\ stdoutTruncated st = true
  /\ truncated (accumulated false evs) = false.
Proof. vm_compute. repeat split. Qed.

(** C7, amended: the two buffers are accumulated independently, each being
    the buffer of the specification's accumulator for its own stream, and
    neither ever exceeds the budget of 500,000; a chunk that takes a stream
    over the budget leaves that buffer at exactly the budget; the code has
    one truncation flag for both streams, set as soon as either stream is
    truncated and never reset by any event; and a close event that settles
    the call with the flag set resolves with the stdout buffer, the stderr
    buffer followed by the truncation marker, and the exit code of the
    close event. *)
Theorem C7_shared_truncation_flag (t : Z) (sig : bool) (evs : list event) :
  let st := deliver_all t (start t sig) evs in
  (stdout st = buffer (accumulated false evs)
   /\ stderr st = buffer (accumulated true evs)
   /\ stdoutTruncated st
      = truncated (accumulated false evs) || truncated (accumulated true evs))
  /\ (Js.length (stdout st) <= MCPORTER_MAX_OUTPUT_CHARS
      /\ Js.length (stderr st) <= MCPORTER_MAX_OUTPUT_CHARS)
  /\ (forall chunk,
        MCPORTER_MAX_OUTPUT_CHARS < Js.length (stdout st ++ chunk) ->
        let st' := deliver t st (StdoutData chunk) in
        Js.length (stdout st') = MCPORTER_MAX_OUTPUT_CHARS
        /\ stderr st' = stderr st
        /\ stdoutTruncated st' = true)
  /\ (forall chunk,
        MCPORTER_MAX_OUTPUT_CHARS < Js.length (stderr st ++ chunk) ->
        let st' := deliver t st (StderrData chunk) in
        Js.length (stderr st') = MCPORTER_MAX_OUTPUT_CHARS
        /\ stdout st' = stdout st
        /\ stdoutTruncated st' = true)
  /\ (stdoutTruncated st = true ->
      forall later, stdoutTruncated (deliver_all t st later) = true)
  /\ (stdoutTruncated st = true -> settled st = None ->
      forall code,
        settled (deliver t st (ChildClose code))
        = Some {| out_stdout := stdout st;
                  out_stderr := stderr st ++ truncation_marker;
                  out_code := code |}).
Proof.
  intros st. split; [apply buffers_refine|].
  split; [apply reachable_bounded|].
  split; [|split; [|split]].
  - intros chunk Hlt. simpl.
    destruct (onData_overflow st chunk false Hlt) as [Hlen Hflag].
    destruct (onData_other_buffer st chunk) as [_ Hother].
    repeat split; assumption.
  - intros chunk Hlt. simpl.
    destruct (onData_overflow st chunk true Hlt) as [Hlen Hflag].
    destruct (onData_other_buffer st chunk) as [Hother _].
    repeat split; assumption.
  - intros Hf later. apply deliver_all_flag_stays. exact Hf.
  - intros Hf Hs code. simpl. rewrite (onClose_unsettled st code Hs).
    rewrite Hf. reflexivity.
Qed.

Lemma C7_shared_truncation_flag_witness :
  let t := MCPORTER_CALL_TIMEOUT_MS in
  let st := deliver_all t (start t false) [StdoutData (letters 499999)] in
  let chunk := lit "xyz" in
  MCPORTER_MAX_OUTPUT_CHARS < Js.length (stdout st ++ chunk)
  /\ Js.length (stdout (deliver t st (StdoutData chunk)))
     = MCPORTER_MAX_OUTPUT_CHARS
  /\ stdoutTruncated (deliver t st (StdoutData chunk)) = true.
Proof.
  pose proof (C7_shared_truncation_flag MCPORTER_CALL_TIMEOUT_MS false
                [StdoutData (letters 499999)]) as (_ & _ & H & _).
  assert (Hlt : MCPORTER_MAX_OUTPUT_CHARS
                < Js.length
                    (stdout (deliver_all MCPORTER_CALL_TIMEOUT_MS
                               (start MCPORTER_CALL_TIMEOUT_MS false)
                               [StdoutData (letters 499999)])
                     ++ lit "xyz"))
    by (vm_compute; reflexivity).
  destruct (H (lit "xyz") Hlt) as (Hlen & _ & Hflag).
  split; [exact Hlt|]. split; [exact Hlen | exact Hflag].
Defined.

(** ** Claims about the result interpreter *)

Lemma code_not_zero_true (code : option Z) :
  code <> Some 0 -> code_not_zero code = true.
Proof.
  intros Hc. destruct code as [z|]; simpl; [|reflexivity].
  destruct (z =? 0) eqn:E; [|reflexivity].
  apply Z.eqb_eq in E. subst z. contradiction.
Qed.

Lemma interpret_fulfilled (R : Runtime) (name : jsstring) (o : outcome) :
  exists res, snd (interpret name o) = Fulfilled res.
Proof.
  unfold interpret.
  destruct (code_not_zero (out_code o)); [eexists; reflexivity|].
  destruct (negb (Js.truthy (Js.trim (out_stdout o))));
    [eexists; reflexivity|].
  unfold try_catch, bind, lift.
  destruct (JSON_parse (Js.trim (out_stdout o))); eexists; reflexivity.
Qed.

(** C2: for an outcome with exit code 0 the interpreter trims stdout and
    fulfils with: the payload with [result: null] and an empty [raw] when
    the trimmed text is empty; the parsed value itself when [JSON.parse]
    accepts the trimmed text; the payload [{result: trimmed, raw: trimmed}],
    which keeps the text, when [JSON.parse] throws. *)
Theorem C2_success_payload (R : Runtime) (name : jsstring) (o : outcome) :
  out_code o = Some 0 ->
  let trimmed := Js.trim (out_stdout o) in
  snd (interpret name o)
  = Fulfilled
      (jsonResult
         match trimmed with
         | [] => VObj [(lit "result", VNull); (lit "raw", VStr [])]
         | _ :: _ =>
             match JSON_parse trimmed with
             | inr parsed => parsed
             | inl _ => VObj [(lit "result", VStr trimmed);
                              (lit "raw", VStr trimmed)]
             end
         end).
Proof.
  intros Hc trimmed. unfold interpret. rewrite Hc. simpl code_not_zero.
  cbv iota. fold trimmed.
  destruct trimmed as [|c rest] eqn:Et; [reflexivity|].
  simpl negb. cbv iota. unfold try_catch, bind, lift.
  destruct (JSON_parse (c :: rest)); reflexivity.
Qed.

Lemma C2_success_payload_witness :
  (let o := {| out_stdout := text_a1 ++ Js.newline; out_stderr := [];
               out_code := Some 0 |} in
   out_code o = Some 0
   /\ snd (@interpret example_runtime (lit "search") o)
      = Fulfilled (VObj [(lit "a", VNum 1)]))
  /\ (let o := {| out_stdout := lit "not json"; out_stderr := [];
                  out_code := Some 0 |} in
      snd (@interpret example_runtime (lit "search") o)
      = Fulfilled (VObj [(lit "result", VStr (lit "not json"));
                         (lit "raw", VStr (lit "not json"))]))
  /\ (let o := {| out_stdout := lit "  "; out_stderr := [];
                  out_code := Some 0 |} in
      snd (@interpret example_runtime (lit "search") o)
      = Fulfilled (VObj [(lit "result", VNull); (lit "raw", VStr [])])).
Proof.
  split; [split; [reflexivity|]|split].
  - exact (C2_success_payload example_runtime (lit "search")
             {| out_stdout := text_a1 ++ Js.newline; out_stderr := [];
                out_code := Some 0 |} eq_refl).
  - exact (C2_success_payload example_runtime (lit "search")
             {| out_stdout := lit "not json"; out_stderr := [];
                out_code := Some 0 |} eq_refl).
  - exact (C2_success_payload example_runtime (lit "search")
             {| out_stdout := lit "  "; out_stderr := [];
                out_code := Some 0 |} eq_refl).
Defined.

(** C3: for an outcome whose exit code is not 0 (a nonzero number, or
    "none") the interpreter fulfils with the failure payload whose message is
    the trimmed stderr when that is not empty and otherwise
    ["mcporter call exited with code <code>"], and whose [stdout] field is
    the first 2000 characters of stdout. *)
Theorem C3_failure_payload (R : Runtime) (name : jsstring) (o : outcome) :
  out_code o <> Some 0 ->
  snd (interpret name o)
  = Fulfilled
      (jsonResult
         (VObj [(lit "error", VBool true);
                (lit "message",
                 VStr match Js.trim (out_stderr o) with
                      | [] => lit "mcporter call exited with code "
                                ++ Js.of_code (out_code o)
                      | _ :: _ => Js.trim (out_stderr o)
                      end);
                (lit "stdout", VStr (firstn 2000 (out_stdout o)))])).
Proof.
  intros Hc. unfold interpret. rewrite (code_not_zero_true _ Hc).
  unfold bind, log, ret; simpl.
  rewrite slice_prefix by lia.
  replace (Z.to_nat 2000) with 2000%nat by reflexivity.
  unfold Js.or_else.
  destruct (Js.trim (out_stderr o)); reflexivity.
Qed.

Lemma C3_failure_payload_witness :
  (let o := {| out_stdout := lit "partial";
               out_stderr := lit "boom" ++ Js.newline;
               out_code := Some 2 |} in
   out_code o <> Some 0
   /\ snd (@interpret example_runtime (lit "search") o)
      = Fulfilled (VObj [(lit "error", VBool true);
                         (lit "message", VStr (lit "boom"));
                         (lit "stdout", VStr (lit "partial"))]))
  /\ (let o := {| out_stdout := []; out_stderr := lit " ";
                  out_code := None |} in
      snd (@interpret example_runtime (lit "search") o)
      = Fulfilled
          (VObj [(lit "error", VBool true);
                 (lit "message",
                  VStr (lit "mcporter call exited with code null"));
                 (lit "stdout", VStr [])])).
Proof.
  split; [split; [discriminate|]|].
  - exact (C3_failure_payload example_runtime (lit "search")
             {| out_stdout := lit "partial";
                out_stderr := lit "boom" ++ Js.newline;
                out_code := Some 2 |} ltac:(discriminate)).
  - exact (C3_failure_payload example_runtime (lit "search")
             {| out_stdout := []; out_stderr := lit " "; out_code := None |}
             ltac:(discriminate)).
Defined.

(** ** Claims about the bridge *)

Lemma pair_eta {A B} (p : A * B) : (fst p, snd p) = p.
Proof. destruct p. reflexivity. Qed.

Lemma mcporter_args_shape (R : Runtime) (p : call_params) (json : jsstring) :
  JSON_stringify (params p) = inr json ->
  mcporter_args p
  = ret (match mcporterConfigPath p with
         | [] => []
         | _ :: _ => [lit "--config"; mcporterConfigPath p]
         end ++ [lit "call"; toolName p; lit "--args"; json]).
Proof.
  intros Hj. unfold mcporter_args. rewrite Hj.
  destruct (mcporterConfigPath p); reflexivity.
Qed.

(** C8: when the parameters stringify to [json], [spawn] receives the
    command and the argv array (discrete strings)
    [--config <path> call <toolName> --args <json>] when a config path is
    set, and [call <toolName> --args <json>], without the flag pair, when
    the config path is the empty string. *)
Theorem C8_argv_shape (R : Runtime) (p : call_params) (spawn : spawner)
    (json : jsstring) :
  JSON_stringify (params p) = inr json ->
  let argv :=
    match mcporterConfigPath p with
    | [] => []
    | _ :: _ => [lit "--config"; mcporterConfigPath p]
    end ++ [lit "call"; toolName p; lit "--args"; json] in
  snd (mcporter_args p) = Fulfilled argv
  /\ runMcporterCall p spawn
     = match spawn resolveMcporterCommand argv with
       | SpawnThrows e => throw e
       | SpawnChild evs =>
           promise_of
             (deliver_all MCPORTER_CALL_TIMEOUT_MS
                (start MCPORTER_CALL_TIMEOUT_MS (abortSignal p)) evs)
       end
  /\ (mcporterConfigPath p = [] ->
      argv = [lit "call"; toolName p; lit "--args"; json])
  /\ (mcporterConfigPath p <> [] ->
      argv = [lit "--config"; mcporterConfigPath p;
              lit "call"; toolName p; lit "--args"; json]).
Proof.
  intros Hj argv. pose proof (mcporter_args_shape R p json Hj) as Ha.
  fold argv in Ha. repeat split.
  - rewrite Ha. reflexivity.
  - unfold runMcporterCall. rewrite Ha. unfold bind, ret. simpl.
    apply pair_eta.
  - intros He. unfold argv. rewrite He. reflexivity.
  - intros Hne. unfold argv.
    destruct (mcporterConfigPath p); [contradiction|reflexivity].
Qed.

Lemma C8_argv_shape_witness :
  let p := {| toolName := lit "search"; params := VObj [];
              mcporterConfigPath := []; abortSignal := false |} in
  let q := {| toolName := lit "search"; params := VObj [];
              mcporterConfigPath := lit "/etc/mcporter.json";
              abortSignal := false |} in
  @JSON_stringify example_runtime (params p) = inr (lit "{}")
  /\ snd (@mcporter_args example_runtime p)
     = Fulfilled [lit "call"; lit "search"; lit "--args"; lit "{}"]
  /\ snd (@mcporter_args example_runtime q)
     = Fulfilled [lit "--config"; lit "/etc/mcporter.json";
                  lit "call"; lit "search"; lit "--args"; lit "{}"].
Proof.
  split; [reflexivity|]. split.
  - exact (proj1 (C8_argv_shape example_runtime
                    {| toolName := lit "search"; params := VObj [];
                       mcporterConfigPath := []; abortSignal := false |}
                    (fun _ _ => SpawnChild []) (lit "{}") eq_refl)).
  - exact (proj1 (C8_argv_shape example_runtime
                    {| toolName := lit "search"; params := VObj [];
                       mcporterConfigPath := lit "/etc/mcporter.json";
                       abortSignal := false |}
                    (fun _ _ => SpawnChild []) (lit "{}") eq_refl)).
Defined.

(** C6: when the child reports a spawn error while the promise of the call
    is unsettled (for a missing or forbidden executable it is the first
    event), [runMcporterCall] fulfils, it does not reject, with exit code
    "none", an empty stdout and [String(err)] as stderr. *)
Theorem C6_spawn_error_resolves (R : Runtime) (p : call_params)
    (spawn : spawner) (argv : list jsstring) (err : thrown)
    (before after : list event) :
  snd (mcporter_args p) = Fulfilled argv ->
  spawn resolveMcporterCommand argv
  = SpawnChild (before ++ ChildError err :: after) ->
  settled (deliver_all MCPORTER_CALL_TIMEOUT_MS
             (start MCPORTER_CALL_TIMEOUT_MS (abortSignal p)) before) = None ->
  snd (runMcporterCall p spawn)
  = Fulfilled {| out_stdout := []; out_stderr := String_of_thrown err;
                 out_code := None |}.
Proof.
  intros Ha Hsp Hs. unfold runMcporterCall, bind. rewrite Ha, Hsp.
  unfold promise_of. cbn [fst snd]. rewrite deliver_all_app.
  change (deliver_all ?t ?st (ChildError err :: after))
    with (deliver_all t (onError st err) after).
  rewrite (deliver_all_settled_stays _ after _ _
             (onError_unsettled _ err Hs)).
  reflexivity.
Qed.

Lemma C6_spawn_error_resolves_witness :
  let p := {| toolName := lit "search"; params := VObj [];
              mcporterConfigPath := []; abortSignal := false |} in
  let enoent := ErrorObject (lit "Error") (lit "spawn mcporter ENOENT")
                  (Some (lit "ENOENT")) in
  snd (@runMcporterCall example_runtime p
         (fun _ _ => SpawnChild [ChildError enoent; ChildClose (Some (-2))]))
  = Fulfilled {| out_stdout := [];
                 out_stderr := lit "Error: spawn mcporter ENOENT";
                 out_code := None |}.
Proof.
  exact (C6_spawn_error_resolves example_runtime
           {| toolName := lit "search"; params := VObj [];
              mcporterConfigPath := []; abortSignal := false |}
           (fun _ _ => SpawnChild
              [ChildError (ErrorObject (lit "Error")
                             (lit "spawn mcporter ENOENT")
                             (Some (lit "ENOENT")));
               ChildClose (Some (-2))])
           [lit "call"; lit "search"; lit "--args"; lit "{}"]
           (ErrorObject (lit "Error") (lit "spawn mcporter ENOENT")
              (Some (lit "ENOENT")))
           [] [ChildClose (Some (-2))] eq_refl eq_refl eq_refl).
Defined.









(** ** Claims about the default client tools loader *)

Import Catalog.

Lemma eqb_eq (a b : jsstring) : Js.eqb a b = true <-> a = b.
Proof.
  revert b. induction a as [|x a IH]; intros [|y b]; simpl;
    try (split; [discriminate|discriminate]); [split; reflexivity|].
  rewrite andb_true_iff, N.eqb_eq, IH. split.
  - intros [-> ->]. reflexivity.
  - intros E. injection E as -> ->. split; reflexivity.
Qed.

Lemma same_path_eq (cp : option jsstring) (path : jsstring) :
  same_path cp path = true <-> cp = Some path.
Proof.
  destruct cp as [p|]; simpl.
  - rewrite eqb_eq. split; [intros ->; reflexivity|].
    intros E. injection E as ->. reflexivity.
  - split; discriminate.
Qed.

Lemma isClientToolDefinitionArray_spec (v : value) :
  isClientToolDefinitionArray v = true
  <-> exists items, v = VArr items /\ Forall tool_shaped items.
Proof.
  split.
  - destruct v; try discriminate. simpl. intros Hall.
    exists items. split; [reflexivity|].
    apply Forall_forall. intros item Hin.
    rewrite forallb_forall in Hall. specialize (Hall item Hin).
    destruct item as [| |b|n|s|arr|props]; simpl in Hall;
      rewrite ?orb_true_r in Hall; try discriminate.
    destruct (lookup (lit "function") props) as [| |b|n|s|farr|fprops] eqn:Ef;
      simpl in Hall; rewrite ?andb_false_r in Hall; try discriminate.
    destruct (lookup (lit "name") fprops) as [| |b|n|s|narr|nprops] eqn:En;
      simpl in Hall; try discriminate.
    exists props, fprops, s. repeat split; assumption.
  - intros (items & -> & Hall). simpl. apply forallb_forall.
    intros item Hin. rewrite Forall_forall in Hall.
    destruct (Hall item Hin) as (props & fprops & s & -> & Ef & En).
    simpl. rewrite Ef. simpl. rewrite En. reflexivity.
Qed.

Lemma load_hit (R : Runtime) (cfg : OpenClawConfig) (w : world) (c : cache)
    (xs : list value) :
  same_path (cachedPath c) (resolve_path cfg w) = true ->
  cached c = Some xs ->
  loadDefaultClientTools cfg w c = ([], c, inr (non_empty xs)).
Proof.
  intros Hp Hc. unfold loadDefaultClientTools, bind, read_cache.
  rewrite Hp, Hc. reflexivity.
Qed.

Lemma load_miss (R : Runtime) (cfg : OpenClawConfig) (w : world) (c : cache) :
  cache_miss c (resolve_path cfg w) ->
  exists fx,
    loadDefaultClientTools cfg w c
    = (FsRead (resolve_path cfg w) :: fx,
       {| cached := Some (stored R w (resolve_path cfg w));
          cachedPath := Some (resolve_path cfg w) |},
       inr (non_empty (stored R w (resolve_path cfg w)))).
Proof.
  intros Hmiss. unfold loadDefaultClientTools, stored.
  set (path := resolve_path cfg w).
  assert (Hbody : forall body : L (option (list value)),
             bind read_cache
               (fun c0 =>
                  match same_path (cachedPath c0) path, cached c0 with
                  | true, Some xs => ret (non_empty xs)
                  | _, _ => body
                  end) c
             = body c).
  { intros body. unfold bind, read_cache.
    destruct Hmiss as [Hm | Hm]; fold path in Hm; rewrite Hm.
    - destruct (body c) as [[fx c'] r]. reflexivity.
    - destruct (same_path (cachedPath c) path);
        destruct (body c) as [[fx c'] r]; reflexivity. }
  rewrite Hbody. clear Hbody.
  unfold try_catch, bind, emit, lift, logWarn, logInfo, set_cachedPath,
    set_cached, ret, emit.
  destruct (readFile w path) as [e|raw]; [eexists; reflexivity|].
  destruct (JSON_parse raw) as [e|parsed]; [eexists; reflexivity|].
  destruct (isClientToolDefinitionArray parsed); simpl;
    [|eexists; reflexivity].
  destruct (items_of parsed); eexists; reflexivity.
Qed.

Lemma load_never_throws (R : Runtime) (cfg : OpenClawConfig) (w : world)
    (c : cache) :
  exists fx c' res, loadDefaultClientTools cfg w c = (fx, c', inr res).
Proof.
  destruct (same_path (cachedPath c) (resolve_path cfg w)) eqn:Hp.
  - destruct (cached c) as [xs|] eqn:Hc.
    + rewrite (load_hit R cfg w c xs Hp Hc). do 3 eexists. reflexivity.
    + destruct (load_miss R cfg w c (or_intror Hc)) as [fx ->].
      do 3 eexists. reflexivity.
  - destruct (load_miss R cfg w c (or_introl Hp)) as [fx ->].
    do 3 eexists. reflexivity.
Qed.

(** After a load the cache holds an entry for the path, whose list gives
    the answer of the load. *)
Lemma load_leaves_entry (R : Runtime) (cfg : OpenClawConfig) (w : world)
    (c c' : cache) (fx : list effect) (res : option (list value)) :
  loadDefaultClientTools cfg w c = (fx, c', inr res) ->
  exists xs,
    cachedPath c' = Some (resolve_path cfg w)
    /\ cached c' = Some xs
    /\ res = non_empty xs.
Proof.
  intros Hr.
  destruct (same_path (cachedPath c) (resolve_path cfg w)) eqn:Hp.
  - destruct (cached c) as [xs|] eqn:Hc.
    + rewrite (load_hit R cfg w c xs Hp Hc) in Hr.
      injection Hr as _ <- <-. exists xs.
      apply same_path_eq in Hp. repeat split; assumption.
    + destruct (load_miss R cfg w c (or_intror Hc)) as [fx' Hm].
      rewrite Hm in Hr. injection Hr as _ <- <-.
      eexists. repeat split.
  - destruct (load_miss R cfg w c (or_introl Hp)) as [fx' Hm].
    rewrite Hm in Hr. injection Hr as _ <- <-.
    eexists. repeat split.
Qed.

(** A second request for the same path is answered from the cache: no
    effect, the same cache, the same answer, whatever the file has become. *)
Lemma load_again (R : Runtime) (cfg cfg' : OpenClawConfig) (w w' : world)
    (c c' : cache) (fx : list effect) (res : option (list value)) :
  loadDefaultClientTools cfg w c = (fx, c', inr res) ->
  resolve_path cfg' w' = resolve_path cfg w ->
  loadDefaultClientTools cfg' w' c' = ([], c', inr res).
Proof.
  intros Hr Hsame.
  destruct (load_leaves_entry R cfg w c c' fx res Hr) as (xs & Hp & Hc & ->).
  apply load_hit; [|exact Hc].
  rewrite Hsame. apply same_path_eq. exact Hp.
Qed.

(** C9: a load never throws. A request that finds no entry for its path
    in the cache reads the file of that path, and: when the file cannot be
    read, when its text is not JSON, and when the parsed value is not a
    valid catalog, it returns absent ([None]) and stores the empty list
    under the path; when the parsed value is a valid catalog it returns its
    entries (absent when there are none) and stores them under the path. A
    value is a valid catalog exactly when it is an array of objects that
    each have a nested [function.name] string. A request that finds an
    entry for its path is answered from it, without any effect; so after a
    load, a request for the same path is answered from the cache, with the
    same answer and without reading the file. *)
Theorem C9_loader_absent_and_cached (R : Runtime) (cfg : OpenClawConfig)
    (w : world) (c : cache) :
  let path := resolve_path cfg w in
  let r := loadDefaultClientTools cfg w c in
  (exists fx c' res, r = (fx, c', inr res))
  /\ (cache_miss c path ->
      (exists fx, fst (fst r) = FsRead path :: fx)
      /\ (forall e,
            readFile w path = inl e ->
            snd r = inr None
            /\ snd (fst r)
               = {| cached := Some []; cachedPath := Some path |})
      /\ (forall raw e,
            readFile w path = inr raw -> JSON_parse raw = inl e ->
            snd r = inr None
            /\ snd (fst r)
               = {| cached := Some []; cachedPath := Some path |})
      /\ (forall raw parsed,
            readFile w path = inr raw -> JSON_parse raw = inr parsed ->
            isClientToolDefinitionArray parsed = false ->
            snd r = inr None
            /\ snd (fst r)
               = {| cached := Some []; cachedPath := Some path |})
      /\ (forall raw items,
            readFile w path = inr raw -> JSON_parse raw = inr (VArr items) ->
            isClientToolDefinitionArray (VArr items) = true ->
            snd r = inr match items with
                        | [] => None
                        | _ :: _ => Some items
                        end
            /\ snd (fst r)
               = {| cached := Some items; cachedPath := Some path |}))
  /\ (forall xs,
        cachedPath c = Some path -> cached c = Some xs ->
        r = ([], c, inr match xs with
                        | [] => None
                        | _ :: _ => Some xs
                        end))
  /\ (forall v,
        isClientToolDefinitionArray v = true
        <-> exists items, v = VArr items /\ Forall tool_shaped items)
  /\ (forall fx c' res cfg' w',
        r = (fx, c', inr res) ->
        resolve_path cfg' w' = path ->
        loadDefaultClientTools cfg' w' c' = ([], c', inr res)).
Proof.
  intros path r. split; [apply load_never_throws|].
  split; [|split; [|split; [apply isClientToolDefinitionArray_spec|]]].
  - intros Hmiss. destruct (load_miss R cfg w c Hmiss) as [fx Hm].
    fold path in Hm. fold r in Hm. rewrite Hm. cbn [fst snd].
    unfold stored.
    split; [exists fx; reflexivity|]. split; [|split; [|split]].
    + intros e ->. split; reflexivity.
    + intros raw e -> ->. split; reflexivity.
    + intros raw parsed -> -> ->. split; reflexivity.
    + intros raw items -> -> ->. split; reflexivity.
  - intros xs Hp Hc. apply same_path_eq in Hp.
    exact (load_hit R cfg w c xs Hp Hc).
  - intros fx c' res cfg' w' Hr Hsame.
    exact (load_again R cfg cfg' w w' c c' fx res Hr Hsame).
Qed.

Lemma C9_loader_absent_and_cached_witness :
  let path := lit "/app/config/default-client-tools.json" in
  let r := @loadDefaultClientTools example_runtime config_default
             (world_with_file text_tools) empty_cache in
  cache_miss empty_cache
    (resolve_path config_default (world_with_file text_tools))
  /\ snd r = inr (Some [search_tool])
  /\ snd (fst r)
     = {| cached := Some [search_tool]; cachedPath := Some path |}
  /\ @loadDefaultClientTools example_runtime config_default
       world_without_file (snd (fst r))
     = ([], snd (fst r), inr (Some [search_tool]))
  /\ snd (@loadDefaultClientTools example_runtime config_default
            world_without_file empty_cache)
     = inr None.
Proof.
  pose proof (C9_loader_absent_and_cached example_runtime config_default
                (world_with_file text_tools) empty_cache)
    as (_ & Hload & _ & _ & Hagain).
  pose proof (C9_loader_absent_and_cached example_runtime config_default
                world_without_file empty_cache) as (_ & Habsent & _).
  assert (Hmiss : cache_miss empty_cache
                    (resolve_path config_default (world_with_file text_tools)))
    by (right; reflexivity).
  assert (Hmiss' : cache_miss empty_cache
                     (resolve_path config_default world_without_file))
    by (right; reflexivity).
  destruct (Hload Hmiss) as (_ & _ & _ & _ & Hvalid).
  destruct (Hvalid text_tools [search_tool] eq_refl eq_refl eq_refl)
    as [Hres Hcache].
  destruct (Habsent Hmiss') as (_ & Hmissing & _).
  split; [exact Hmiss|]. split; [exact Hres|]. split; [exact Hcache|].
  split.
  - exact (Hagain _ _ _ config_default world_without_file eq_refl eq_refl).
  - exact (proj1 (Hmissing enoent eq_refl)).
Defined.

Lemma non_empty_not_nil (xs : list value) : non_empty xs <> Some [].
Proof. destruct xs; discriminate. Qed.

Lemma clear_cache (c : cache) :
  clearDefaultClientToolsCache c = ([], empty_cache, inr tt).
Proof. reflexivity. Qed.

(** C10: a request that reads a file holding a valid but empty array returns
    absent, and no load ever returns the empty list as a success; every
    load, failed, invalid or successful, leaves a cache entry for its path,
    and until the path changes or the cache is cleared a request for that
    path returns the cached answer without any effect, whatever the file
    system has become; a request for another path reads the file of that
    path, and after [clearDefaultClientToolsCache] the next request reads the
    file again. *)
Theorem C10_empty_and_negative_caching (R : Runtime) (cfg : OpenClawConfig)
    (w : world) (c : cache) :
  let path := resolve_path cfg w in
  let r := loadDefaultClientTools cfg w c in
  (cache_miss c path ->
   forall raw,
     readFile w path = inr raw -> JSON_parse raw = inr (VArr []) ->
     snd r = inr None)
  /\ snd r <> inr (Some [])
  /\ (forall fx c1 res,
        r = (fx, c1, inr res) ->
        cachedPath c1 = Some path
        /\ cached c1 <> None
        /\ (forall cfg' w',
              resolve_path cfg' w' = path ->
              loadDefaultClientTools cfg' w' c1 = ([], c1, inr res))
        /\ (forall cfg' w',
              resolve_path cfg' w' <> path ->
              exists fx',
                fst (fst (loadDefaultClientTools cfg' w' c1))
                = FsRead (resolve_path cfg' w') :: fx')
        /\ (forall cfg' w',
              exists fx',
                fst (fst (loadDefaultClientTools cfg' w'
                            (snd (fst (clearDefaultClientToolsCache c1)))))
                = FsRead (resolve_path cfg' w') :: fx')).
Proof.
  intros path r. split; [|split].
  - intros Hmiss raw Hread Hparse.
    destruct (load_miss R cfg w c Hmiss) as [fx Hm].
    fold path in Hm. fold r in Hm. rewrite Hm. simpl. unfold stored.
    fold path. rewrite Hread, Hparse. reflexivity.
  - destruct (load_never_throws R cfg w c) as (fx & c' & res & Hr).
    fold r in Hr. rewrite Hr. simpl.
    destruct (load_leaves_entry R cfg w c c' fx res Hr) as (xs & _ & _ & ->).
    intros E. injection E as E. exact (non_empty_not_nil xs E).
  - intros fx c1 res Hr.
    destruct (load_leaves_entry R cfg w c c1 fx res Hr) as (xs & Hp & Hc & Hres).
    fold path in Hp. split; [exact Hp|]. split; [rewrite Hc; discriminate|].
    split; [|split].
    + intros cfg' w' Hsame.
      exact (load_again R cfg cfg' w w' c c1 fx res Hr Hsame).
    + intros cfg' w' Hother.
      assert (Hmiss : cache_miss c1 (resolve_path cfg' w')).
      { left. destruct (same_path (cachedPath c1) (resolve_path cfg' w')) eqn:E;
          [|reflexivity].
        apply same_path_eq in E. rewrite Hp in E. injection E as E.
        symmetry in E. contradiction. }
      destruct (load_miss R cfg' w' c1 Hmiss) as [fx' ->].
      exists fx'. reflexivity.
    + intros cfg' w'. rewrite clear_cache. simpl.
      assert (Hmiss : cache_miss empty_cache (resolve_path cfg' w'))
        by (right; reflexivity).
      destruct (load_miss R cfg' w' empty_cache Hmiss) as [fx' ->].
      exists fx'. reflexivity.
Qed.

Lemma C10_empty_and_negative_caching_witness :
  let r := @loadDefaultClientTools example_runtime config_default
             (world_with_file (lit "[]")) empty_cache in
  let c1 := snd (fst r) in
  cache_miss empty_cache
    (resolve_path config_default (world_with_file (lit "[]")))
  /\ snd r = inr None
  /\ @loadDefaultClientTools example_runtime config_default
       (world_with_file text_tools) c1
     = ([], c1, inr None)
  /\ snd (@loadDefaultClientTools example_runtime config_default
            (world_with_file text_tools)
            (snd (fst (clearDefaultClientToolsCache c1))))
     = inr (Some [search_tool]).
Proof.
  pose proof (C10_empty_and_negative_caching example_runtime config_default
                (world_with_file (lit "[]")) empty_cache) as (Hempty & _ & Hc).
  assert (Hmiss : cache_miss empty_cache
                    (resolve_path config_default (world_with_file (lit "[]"))))
    by (right; reflexivity).
  destruct (Hc _ _ _ eq_refl) as (_ & _ & Hagain & _).
  split; [exact Hmiss|]. split; [exact (Hempty Hmiss (lit "[]") eq_refl eq_refl)|].
  split; [exact (Hagain config_default (world_with_file text_tools) eq_refl)|].
  reflexivity.
Defined.

(** ** The bridge run end to end on the example runtime *)

Example execute_parses_stdout :
  snd (@execute example_runtime (lit "search") [] (child_printing text_a1 0)
         (lit "call-1") (VObj []) false)
  = Fulfilled (VObj [(lit "a", VNum 1)]).
Proof. reflexivity. Qed.

Example execute_keeps_raw_text :
  snd (@execute example_runtime (lit "search") []
         (child_printing (lit "not json") 0) (lit "call-1") (VObj []) false)
  = Fulfilled (VObj [(lit "result", VStr (lit "not json"));
                     (lit "raw", VStr (lit "not json"))]).
Proof. reflexivity. Qed.

Example execute_reports_exit_code :
  snd (@execute example_runtime (lit "search") []
         (fun _ _ => SpawnChild [StderrData (lit "boom"); ChildClose (Some 2)])
         (lit "call-1") (VObj []) false)
  = Fulfilled (VObj [(lit "error", VBool true);
                     (lit "message", VStr (lit "boom"));
                     (lit "stdout", VStr [])]).
Proof. reflexivity. Qed.

Example execute_times_out :
  snd (@execute example_runtime (lit "search") []
         (fun _ _ => SpawnChild [StdoutData (lit "partial"); TimerExpires;
                                 ChildClose None])
         (lit "call-1") (VObj []) true)
  = Fulfilled (VObj [(lit "error", VBool true);
                     (lit "message",
                      VStr (lit "mcporter call timed out after 60000ms"));
                     (lit "stdout", VStr [])]).
Proof. reflexivity. Qed.

Example execute_passes_argv :
  snd (@execute example_runtime (lit "search") (lit "/etc/mcporter.json")
         (child_expecting [lit "--config"; lit "/etc/mcporter.json";
                           lit "call"; lit "search"; lit "--args"; lit "{}"])
         (lit "call-1") (VStr (lit "not an object")) false)
  = Fulfilled (VObj []).
Proof. reflexivity. Qed.

Example abort_after_close_changes_nothing :
  let t := MCPORTER_CALL_TIMEOUT_MS in
  let st := deliver_all t (start t true) [ChildClose (Some 0)] in
  settled (deliver t st AbortFires) = settled st
  /\ kills (deliver t st AbortFires) = 1%nat.
Proof. split; reflexivity. Qed.

(** * Further properties *)

(** ** The buffers of the process invoker *)

Lemma firstn_firstn_app {A} (n : nat) (a b : list A) :
  firstn n (firstn n a ++ b) = firstn n (a ++ b).
Proof.
  destruct (Nat.le_gt_cases (List.length a) n) as [Hle|Hgt].
  - rewrite (firstn_all2 a) by assumption. reflexivity.
  - rewrite !firstn_app, firstn_firstn, Nat.min_id, List.length_firstn.
    replace (n - Nat.min n (List.length a))%nat with 0%nat by lia.
    replace (n - List.length a)%nat with 0%nat by lia.
    reflexivity.
Qed.

Lemma stream_text_snoc (isErr : bool) (evs : list event) (ev : event) :
  stream_text isErr (evs ++ [ev])
  = stream_text isErr evs ++ stream_text isErr [ev].
Proof. unfold stream_text. apply flat_map_app. Qed.

(** What [onData] stores when the buffer is the kept prefix of [text]. *)
Lemma onData_prefix (st : call_state) (chunk text : jsstring) (isErr : bool) :
  (if isErr then stderr st else stdout st)
  = firstn (Z.to_nat MCPORTER_MAX_OUTPUT_CHARS) text ->
  (if isErr then stderr (onData st chunk isErr)
   else stdout (onData st chunk isErr))
  = firstn (Z.to_nat MCPORTER_MAX_OUTPUT_CHARS) (text ++ chunk)
  /\ stdoutTruncated (onData st chunk isErr)
     = stdoutTruncated st
       || (MCPORTER_MAX_OUTPUT_CHARS
             <? Js.length (firstn (Z.to_nat MCPORTER_MAX_OUTPUT_CHARS) text
                             ++ chunk)).
Proof.
  intros Hbuf. pose proof max_output_nonneg as Hmax. unfold onData.
  rewrite Hbuf. rewrite Z.gtb_ltb.
  rewrite (slice_prefix _ _ Hmax).
  remember (Z.to_nat MCPORTER_MAX_OUTPUT_CHARS) as n eqn:Hn.
  destruct (MCPORTER_MAX_OUTPUT_CHARS <? Js.length _) eqn:E.
  - rewrite firstn_firstn_app.
    destruct isErr; simpl; split; try reflexivity;
      rewrite orb_true_r; reflexivity.
  - apply Z.ltb_ge in E. unfold Js.length in E.
    rewrite <- (firstn_firstn_app n text chunk).
    rewrite (firstn_all2 (firstn n text ++ chunk)) by lia.
    destruct isErr; simpl; split; try reflexivity;
      rewrite orb_false_r; reflexivity.
Qed.

Lemma overflow_step (m lt lc : Z) :
  0 <= m -> 0 <= lt -> 0 <= lc ->
  (m <? lt + lc) = (m <? lt) || (m <? Z.min m lt + lc).
Proof.
  intros Hm Hlt Hlc.
  destruct (m <? lt) eqn:E1; destruct (m <? lt + lc) eqn:E2;
    destruct (m <? Z.min m lt + lc) eqn:E3; simpl; try reflexivity;
    rewrite ?Z.ltb_lt, ?Z.ltb_ge in *; lia.
Qed.

Lemma length_kept_prefix (text chunk : jsstring) :
  Js.length (firstn (Z.to_nat MCPORTER_MAX_OUTPUT_CHARS) text ++ chunk)
  = Z.min MCPORTER_MAX_OUTPUT_CHARS (Js.length text) + Js.length chunk.
Proof.
  pose proof max_output_nonneg as Hmax.
  remember (Z.to_nat MCPORTER_MAX_OUTPUT_CHARS) as n eqn:Hn.
  unfold Js.length. rewrite List.length_app, List.length_firstn. lia.
Qed.

(** Events other than data leave the buffers and the flag alone. *)
Lemma control_keeps_buffers (t : Z) (st : call_state) (ev : event) :
  match ev with StdoutData _ | StderrData _ => False | _ => True end ->
  stdout (deliver t st ev) = stdout st
  /\ stderr (deliver t st ev) = stderr st
  /\ stdoutTruncated (deliver t st ev) = stdoutTruncated st.
Proof.
  intros Hev. destruct ev; try contradiction.
  - destruct st as [so se fl [| | |] al k [o|] lg]; handler; auto.
  - destruct st as [so se fl tm [|] k [o|] lg]; handler; auto.
  - destruct st as [so se fl [| | |] al k [o|] lg]; handler; auto.
  - destruct st as [so se [|] [| | |] al k [o|] lg]; handler; auto.
Qed.

Lemma machine_text (t : Z) (sig : bool) (evs : list event) :
  let st := deliver_all t (start t sig) evs in
  stdout st
  = firstn (Z.to_nat MCPORTER_MAX_OUTPUT_CHARS) (stream_text false evs)
  /\ stderr st
     = firstn (Z.to_nat MCPORTER_MAX_OUTPUT_CHARS) (stream_text true evs)
  /\ stdoutTruncated st
     = (MCPORTER_MAX_OUTPUT_CHARS <? Js.length (stream_text false evs))
       || (MCPORTER_MAX_OUTPUT_CHARS <? Js.length (stream_text true evs)).
Proof.
  pose proof max_output_nonneg as Hmax.
  induction evs as [|ev evs IH] using rev_ind.
  - cbv zeta. change (stream_text false []) with (@nil N).
    change (stream_text true []) with (@nil N).
    rewrite !firstn_nil. repeat split.
  - cbv zeta in *. rewrite deliver_all_snoc, !stream_text_snoc.
    destruct IH as (Ho & He & Hf).
    set (st := deliver_all t (start t sig) evs) in *.
    set (tout := stream_text false evs) in *.
    set (terr := stream_text true evs) in *.
    destruct ev.
    + simpl stream_text. rewrite !app_nil_r. simpl deliver.
      destruct (onData_prefix st chunk tout false Ho) as [Hb Hfl].
      destruct (onData_other_buffer st chunk) as [_ Hother].
      split; [exact Hb|]. split; [rewrite Hother; exact He|].
      rewrite Hfl, Hf, length_kept_prefix, length_app.
      rewrite (overflow_step _ (Js.length tout) (Js.length chunk))
        by (try assumption; apply length_nonneg).
      generalize (MCPORTER_MAX_OUTPUT_CHARS <? Js.length tout) as a.
      generalize (MCPORTER_MAX_OUTPUT_CHARS <? Js.length terr) as b.
      generalize (MCPORTER_MAX_OUTPUT_CHARS
                    <? Z.min MCPORTER_MAX_OUTPUT_CHARS (Js.length tout)
                       + Js.length chunk) as x.
      intros [|] [|] [|]; reflexivity.
    + simpl stream_text. rewrite !app_nil_r. simpl deliver.
      destruct (onData_prefix st chunk terr true He) as [Hb Hfl].
      destruct (onData_other_buffer st chunk) as [Hother _].
      split; [rewrite Hother; exact Ho|]. split; [exact Hb|].
      rewrite Hfl, Hf, length_kept_prefix, length_app.
      rewrite (overflow_step _ (Js.length terr) (Js.length chunk))
        by (try assumption; apply length_nonneg).
      generalize (MCPORTER_MAX_OUTPUT_CHARS <? Js.length tout) as a.
      generalize (MCPORTER_MAX_OUTPUT_CHARS <? Js.length terr) as b.
      generalize (MCPORTER_MAX_OUTPUT_CHARS
                    <? Z.min MCPORTER_MAX_OUTPUT_CHARS (Js.length terr)
                       + Js.length chunk) as x.
      intros [|] [|] [|]; reflexivity.
    + simpl stream_text. rewrite !app_nil_r.
      destruct (control_keeps_buffers t st TimerExpires I) as (-> & -> & ->).
      auto.
    + simpl stream_text. rewrite !app_nil_r.
      destruct (control_keeps_buffers t st AbortFires I) as (-> & -> & ->).
      auto.
    + simpl stream_text. rewrite !app_nil_r.
      destruct (control_keeps_buffers t st (ChildError err) I)
        as (-> & -> & ->).
      auto.
    + simpl stream_text. rewrite !app_nil_r.
      destruct (control_keeps_buffers t st (ChildClose code) I)
        as (-> & -> & ->).
      auto.
Qed.

(** X1: whatever events a call receives, its stdout buffer is the first
    500,000 code units of all the text the child wrote on stdout, and its
    stderr buffer the first 500,000 code units of all it wrote on stderr:
    truncation keeps the beginning of a stream and drops the rest. *)
Theorem X1_buffers_keep_stream_prefix (t : Z) (sig : bool) (evs : list event) :
  let st := deliver_all t (start t sig) evs in
  stdout st = Js.slice (stream_text false evs) 0 MCPORTER_MAX_OUTPUT_CHARS
  /\ stderr st = Js.slice (stream_text true evs) 0 MCPORTER_MAX_OUTPUT_CHARS.
Proof.
  intros st. rewrite !slice_prefix by apply max_output_nonneg.
  destruct (machine_text t sig evs) as (Ho & He & _). split; assumption.
Qed.

(** X2: the truncation flag of a call is set exactly when the child wrote
    more than 500,000 code units in total on stdout or on stderr; the size
    of the single chunks does not matter. *)
Theorem X2_flag_iff_stream_overflows (t : Z) (sig : bool) (evs : list event) :
  stdoutTruncated (deliver_all t (start t sig) evs) = true
  <-> MCPORTER_MAX_OUTPUT_CHARS < Js.length (stream_text false evs)
      \/ MCPORTER_MAX_OUTPUT_CHARS < Js.length (stream_text true evs).
Proof.
  destruct (machine_text t sig evs) as (_ & _ & Hf). cbv zeta in Hf.
  rewrite Hf, orb_true_iff, !Z.ltb_lt. reflexivity.
Qed.

(** ** Kill signals and outcomes of the process invoker *)

Lemma kills_invariant (t : Z) (sig : bool) (evs : list event) :
  let st := deliver_all t (start t sig) evs in
  (abortListener st = true -> sig = true)
  /\ kills st
     = (Nat.b2n (abort_fired sig st) + Nat.b2n (timer_fired st))%nat.
Proof.
  apply reachable_ind.
  - unfold start, abort_fired, timer_fired; simpl.
    destruct sig; destruct (t >? 0); split; auto.
  - intros st ev [Hl Hk]. unfold abort_fired, timer_fired in *.
    destruct ev; simpl.
    + unfold onData.
      destruct (Js.length _ >? MCPORTER_MAX_OUTPUT_CHARS); simpl; auto.
    + unfold onData.
      destruct (Js.length _ >? MCPORTER_MAX_OUTPUT_CHARS); simpl; auto.
    + destruct st as [so se fl [| | |] al k [o|] lg]; handler; split; auto;
        rewrite Hk; destruct sig, al; simpl; lia.
    + destruct st as [so se fl [| | |] [|] k [o|] lg]; handler; split; auto;
        try discriminate; rewrite Hk; rewrite (Hl eq_refl); simpl; lia.
    + destruct st as [so se fl [| | |] al k [o|] lg]; handler; split; auto.
    + destruct st as [so se [|] [| | |] al k [o|] lg]; handler; split; auto.
Qed.

(** X3: in every state a call can reach, the number of SIGKILL signals sent
    to the child is one for the timeout callback, if it ran, plus one for the
    abort listener, if a signal was given and it fired; so the child is
    killed at most twice, and never when no signal was given and no timer
    was armed. An abort by itself sends at most one signal and settles
    nothing: the promise, the buffers and the timer stay as they are. *)
Theorem X3_kill_signals (t : Z) (sig : bool) (evs : list event) :
  let st := deliver_all t (start t sig) evs in
  kills st = (Nat.b2n (abort_fired sig st) + Nat.b2n (timer_fired st))%nat
  /\ (kills st <= 2)%nat
  /\ (sig = false -> t <= 0 -> kills st = 0%nat)
  /\ (let st' := deliver t st AbortFires in
      settled st' = settled st
      /\ stdout st' = stdout st /\ stderr st' = stderr st
      /\ timer st' = timer st
      /\ (kills st' <= S (kills st))%nat
      /\ deliver t st' AbortFires = st').
Proof.
  intros st. destruct (kills_invariant t sig evs) as [Hl Hk].
  fold st in Hl, Hk.
  destruct (reachable_timer_inv t sig evs) as (_ & _ & H3). fold st in H3.
  split; [exact Hk|]. split; [|split].
  - rewrite Hk. destruct (abort_fired sig st); destruct (timer_fired st);
      simpl; lia.
  - intros -> Ht. rewrite Hk. unfold abort_fired, timer_fired.
    rewrite (H3 Ht). reflexivity.
  - destruct st as [so se fl tm [|] k o lg]; handler; repeat split; lia.
Qed.

Lemma X3_kill_signals_witness :
  let evs := [StdoutData (lit "x"); AbortFires; TimerExpires; AbortFires] in
  kills (deliver_all 0 (start 0 false) evs) = 0%nat
  /\ kills (deliver_all MCPORTER_CALL_TIMEOUT_MS
              (start MCPORTER_CALL_TIMEOUT_MS true) evs) = 2%nat.
Proof.
  split.
  - exact (proj1 (proj2 (proj2 (X3_kill_signals 0 false
                                  [StdoutData (lit "x"); AbortFires;
                                   TimerExpires; AbortFires])))
             eq_refl ltac:(discriminate)).
  - exact (proj1 (X3_kill_signals MCPORTER_CALL_TIMEOUT_MS true
                    [StdoutData (lit "x"); AbortFires; TimerExpires;
                     AbortFires])).
Defined.

Lemma settles_with (t : Z) (st : call_state) (ev : event) (o : outcome) :
  settled st = None ->
  settled (deliver t st ev) = Some o ->
  (out_stdout o = [] /\ out_code o = None)
  \/ (out_stdout o = stdout st
      /\ (out_stderr o = stderr st
          \/ out_stderr o = stderr st ++ truncation_marker)).
Proof.
  intros Hs Ho. destruct ev; cbn [deliver] in Ho.
  - destruct (onData_settled st chunk false) as (E & _).
    rewrite E, Hs in Ho. discriminate.
  - destruct (onData_settled st chunk true) as (E & _).
    rewrite E, Hs in Ho. discriminate.
  - destruct (timer st) eqn:Et; try (rewrite Hs in Ho; discriminate).
    destruct (timeout_unsettled t st Hs Et) as [_ E]. cbn [deliver] in E.
    rewrite Et in E. rewrite E in Ho. injection Ho as <-. left. auto.
  - destruct st as [so se fl tm [|] k [o'|] lg]; handler; discriminate.
  - rewrite (onError_unsettled st err Hs) in Ho. injection Ho as <-.
    left. auto.
  - rewrite (onClose_unsettled st code Hs) in Ho. injection Ho as <-.
    right. simpl. split; [reflexivity|].
    destruct (stdoutTruncated st); auto.
Qed.

(** X4: every outcome a call resolves with is bounded on stdout: its stdout
    has at most 500,000 code units; and when the outcome carries an exit
    code, so that it comes from the close of the child, its stderr has at
    most 500,000 code units plus the 19 of the truncation marker. *)
Theorem X4_outcome_is_bounded (t : Z) (sig : bool) (evs : list event)
    (o : outcome) :
  settled (deliver_all t (start t sig) evs) = Some o ->
  Js.length (out_stdout o) <= MCPORTER_MAX_OUTPUT_CHARS
  /\ (out_code o <> None ->
      Js.length (out_stderr o) <= MCPORTER_MAX_OUTPUT_CHARS + 19).
Proof.
  revert o. induction evs as [|ev evs IH] using rev_ind; intros o Ho.
  - discriminate.
  - rewrite deliver_all_snoc in Ho.
    destruct (settled (deliver_all t (start t sig) evs)) as [o'|] eqn:Hs.
    + rewrite (deliver_settled_stays t _ ev o' Hs) in Ho.
      injection Ho as <-. apply IH. reflexivity.
    + destruct (reachable_bounded t sig evs) as [Hbo Hbe].
      pose proof max_output_nonneg as Hmax.
      destruct (settles_with t _ ev o Hs Ho)
        as [[-> ->] | [-> [-> | ->]]].
      * split; [exact Hmax|]. intros Hc. contradiction.
      * split; [exact Hbo|]. intros _. lia.
      * split; [exact Hbo|]. intros _. rewrite length_app.
        replace (Js.length truncation_marker) with 19 by reflexivity. lia.
Qed.

Lemma X4_outcome_is_bounded_witness :
  let evs := [StdoutData (lit "ok"); StderrData (lit "warn");
              ChildClose (Some 3)] in
  let o := {| out_stdout := lit "ok"; out_stderr := lit "warn";
              out_code := Some 3 |} in
  settled (deliver_all MCPORTER_CALL_TIMEOUT_MS
             (start MCPORTER_CALL_TIMEOUT_MS false) evs) = Some o
  /\ Js.length (out_stdout o) <= MCPORTER_MAX_OUTPUT_CHARS.
Proof.
  split; [reflexivity|].
  exact (proj1 (X4_outcome_is_bounded MCPORTER_CALL_TIMEOUT_MS false
                  [StdoutData (lit "ok"); StderrData (lit "warn");
                   ChildClose (Some 3)] _ eq_refl)).
Defined.

(** ** The bridge from tool definitions to results *)

Lemma runMcporterCall_with_argv (R : Runtime) (p : call_params)
    (spawn : spawner) (json : jsstring) :
  JSON_stringify (params p) = inr json ->
  runMcporterCall p spawn
  = match spawn resolveMcporterCommand
            (match mcporterConfigPath p with
             | [] => []
             | _ :: _ => [lit "--config"; mcporterConfigPath p]
             end ++ [lit "call"; toolName p; lit "--args"; json]) with
    | SpawnThrows e => throw e
    | SpawnChild evs =>
        promise_of
          (deliver_all MCPORTER_CALL_TIMEOUT_MS
             (start MCPORTER_CALL_TIMEOUT_MS (abortSignal p)) evs)
    end.
Proof.
  intros Hj. unfold runMcporterCall.
  rewrite (mcporter_args_shape R p json Hj). promise_ops. simpl.
  apply pair_eta.
Qed.

Lemma runMcporterCall_unserializable (R : Runtime) (p : call_params)
    (spawn : spawner) (e : thrown) :
  JSON_stringify (params p) = inl e ->
  runMcporterCall p spawn = throw e.
Proof.
  intros Hj. unfold runMcporterCall, mcporter_args. promise_ops.
  rewrite Hj. destruct (Js.truthy (mcporterConfigPath p)); reflexivity.
Qed.

Lemma execute_of_outcome (R : Runtime) (name path : jsstring) (spawn : spawner)
    (toolCallId : jsstring) (params : value) (signal : bool) (o : outcome) :
  snd (runMcporterCall
         {| toolName := name;
            params := if isPlainObject params then params else VObj [];
            mcporterConfigPath := path; abortSignal := signal |} spawn)
  = Fulfilled o ->
  snd (execute name path spawn toolCallId params signal)
  = snd (interpret name o).
Proof.
  intros Hr. unfold execute. cbv zeta. promise_ops.
  rewrite Hr. cbn [snd fst].
  destruct (interpret_fulfilled R name o) as [res Hres].
  rewrite Hres. reflexivity.
Qed.

(** X5: [toLocalMcpToolDefinitions] keeps the number and the order of the
    tools; the definition made for a tool has the tool's function name as
    name and label, and running it consults the child process at one
    command line only, [--config <path>]? [call <that name> --args <json>],
    where [json] is the text of the parameters (of [{}] when they are not a
    plain object): two environments that agree on that command line give
    the same result. *)
Theorem X5_definitions_run_their_tool (R : Runtime)
    (tools : list ClientToolDefinition) (path : jsstring) (i : nat)
    (tool : ClientToolDefinition) :
  nth_error tools i = Some tool ->
  List.length (toLocalMcpToolDefinitions tools path) = List.length tools
  /\ exists d,
       nth_error (toLocalMcpToolDefinitions tools path) i = Some d
       /\ tool_name d = fn_name (tool_function tool)
       /\ tool_label d = fn_name (tool_function tool)
       /\ forall toolCallId params signal json spawn spawn',
            JSON_stringify (if isPlainObject params then params else VObj [])
            = inr json ->
            spawn resolveMcporterCommand
              (match path with
               | [] => []
               | _ :: _ => [lit "--config"; path]
               end ++ [lit "call"; fn_name (tool_function tool);
                       lit "--args"; json])
            = spawn' resolveMcporterCommand
                (match path with
                 | [] => []
                 | _ :: _ => [lit "--config"; path]
                 end ++ [lit "call"; fn_name (tool_function tool);
                         lit "--args"; json]) ->
            tool_execute d spawn toolCallId params signal
            = tool_execute d spawn' toolCallId params signal.
Proof.
  intros Hnth. unfold toLocalMcpToolDefinitions.
  split; [apply List.length_map|].
  eexists. split; [apply map_nth_error; exact Hnth|].
  cbn [tool_name tool_label tool_execute]. repeat split.
  intros toolCallId params signal json spawn spawn' Hj Hsame.
  unfold execute. cbv zeta.
  set (p := {| toolName := fn_name (tool_function tool);
               params := if isPlainObject params then params else VObj [];
               mcporterConfigPath := path; abortSignal := signal |}).
  rewrite !(runMcporterCall_with_argv R p _ json Hj).
  cbn [p mcporterConfigPath toolName abortSignal].
  rewrite Hsame. reflexivity.
Qed.

Lemma X5_definitions_run_their_tool_witness :
  let tool := {| tool_function := {| fn_name := lit "search";
                                     fn_description := None;
                                     fn_parameters := None |} |} in
  nth_error [tool] 0 = Some tool
  /\ exists d,
       nth_error (@toLocalMcpToolDefinitions example_runtime [tool] []) 0
       = Some d
       /\ tool_name d = lit "search".
Proof.
  split; [reflexivity|].
  destruct (X5_definitions_run_their_tool example_runtime
              [{| tool_function := {| fn_name := lit "search";
                                      fn_description := None;
                                      fn_parameters := None |} |}]
              [] 0 _ eq_refl) as (_ & d & Hd & Hname & _).
  exists d. split; [exact Hd | exact Hname].
Defined.

(** X6: parameters that [JSON.stringify] refuses never start a process:
    the result is the failure payload carrying the message of the error,
    whatever the environment would have done. *)
Theorem X6_unserializable_params_spawn_nothing (R : Runtime)
    (name path : jsstring) (spawn : spawner) (toolCallId : jsstring)
    (params : value) (signal : bool) (e : thrown) :
  JSON_stringify (if isPlainObject params then params else VObj []) = inl e ->
  snd (execute name path spawn toolCallId params signal)
  = Fulfilled (jsonResult (VObj [(lit "error", VBool true);
                                 (lit "message", VStr (error_message e))]))
  /\ forall spawn',
       execute name path spawn' toolCallId params signal
       = execute name path spawn toolCallId params signal.
Proof.
  intros Hj. split.
  - unfold execute. cbv zeta.
    set (p := {| toolName := name;
                 params := if isPlainObject params then params else VObj [];
                 mcporterConfigPath := path; abortSignal := signal |}).
    rewrite (runMcporterCall_unserializable R p spawn e Hj).
    reflexivity.
  - intros spawn'. unfold execute. cbv zeta.
    set (p := {| toolName := name;
                 params := if isPlainObject params then params else VObj [];
                 mcporterConfigPath := path; abortSignal := signal |}).
    rewrite !(runMcporterCall_unserializable R p _ e Hj). reflexivity.
Qed.

Lemma X6_unserializable_params_spawn_nothing_witness :
  let params := VObj [(lit "b", VStr (lit "x"))] in
  @JSON_stringify example_runtime params
  = inl (ErrorObject (lit "TypeError") (lit "unsupported value") None)
  /\ snd (@execute example_runtime (lit "search") []
            (child_printing (lit "{}") 0) (lit "call-1") params false)
     = Fulfilled (VObj [(lit "error", VBool true);
                        (lit "message", VStr (lit "unsupported value"))]).
Proof.
  split; [reflexivity|].
  exact (proj1 (X6_unserializable_params_spawn_nothing example_runtime
                  (lit "search") [] (child_printing (lit "{}") 0)
                  (lit "call-1") (VObj [(lit "b", VStr (lit "x"))]) false
                  _ eq_refl)).
Defined.

Lemma interpret_killed (R : Runtime) (name text : jsstring) :
  snd (interpret name {| out_stdout := []; out_stderr := text;
                         out_code := None |})
  = Fulfilled
      (jsonResult
         (VObj [(lit "error", VBool true);
                (lit "message",
                 VStr (Js.or_else (Js.trim text)
                         (lit "mcporter call exited with code null")));
                (lit "stdout", VStr [])])).
Proof. reflexivity. Qed.

(** X7: when the timeout of a call fires before the child closed or failed,
    [execute] fulfils with the failure payload whose message is
    ["mcporter call timed out after 60000ms"] and whose [stdout] is empty,
    whatever the child had printed and whatever it does afterwards. *)
Theorem X7_timeout_is_reported (R : Runtime) (name path : jsstring)
    (spawn : spawner) (toolCallId : jsstring) (params : value) (signal : bool)
    (json : jsstring) (before after : list event) :
  JSON_stringify (if isPlainObject params then params else VObj []) = inr json ->
  spawn resolveMcporterCommand
    (match path with
     | [] => []
     | _ :: _ => [lit "--config"; path]
     end ++ [lit "call"; name; lit "--args"; json])
  = SpawnChild (before ++ TimerExpires :: after) ->
  settled (deliver_all MCPORTER_CALL_TIMEOUT_MS
             (start MCPORTER_CALL_TIMEOUT_MS signal) before) = None ->
  snd (execute name path spawn toolCallId params signal)
  = Fulfilled
      (jsonResult
         (VObj [(lit "error", VBool true);
                (lit "message",
                 VStr (lit "mcporter call timed out after 60000ms"));
                (lit "stdout", VStr [])])).
Proof.
  intros Hj Hsp Hs.
  set (p := {| toolName := name;
               params := if isPlainObject params then params else VObj [];
               mcporterConfigPath := path; abortSignal := signal |}).
  rewrite (execute_of_outcome R name path spawn toolCallId params signal
             {| out_stdout := [];
                out_stderr := lit "mcporter call timed out after "
                                ++ Js.of_int MCPORTER_CALL_TIMEOUT_MS
                                ++ lit "ms";
                out_code := None |}).
  - apply interpret_killed.
  - fold p. rewrite (runMcporterCall_with_argv R p spawn json Hj).
    cbn [p mcporterConfigPath toolName abortSignal]. rewrite Hsp.
    unfold promise_of. cbn [snd]. rewrite deliver_all_app.
    destruct (reachable_timer_inv MCPORTER_CALL_TIMEOUT_MS signal before)
      as (_ & H2 & _).
    assert (Hp := H2 eq_refl Hs).
    destruct (timeout_unsettled MCPORTER_CALL_TIMEOUT_MS _ Hs Hp) as [_ Hset].
    change (deliver_all ?t ?st (TimerExpires :: after))
      with (deliver_all t (deliver t st TimerExpires) after).
    rewrite (deliver_all_settled_stays _ after _ _ Hset). reflexivity.
Qed.

Lemma X7_timeout_is_reported_witness :
  snd (@execute example_runtime (lit "search") []
         (fun _ _ => SpawnChild ([StdoutData (lit "partial")]
                                   ++ TimerExpires :: [ChildClose None]))
         (lit "call-1") (VObj []) false)
  = Fulfilled (VObj [(lit "error", VBool true);
                     (lit "message",
                      VStr (lit "mcporter call timed out after 60000ms"));
                     (lit "stdout", VStr [])]).
Proof.
  exact (X7_timeout_is_reported example_runtime (lit "search") []
           (fun _ _ => SpawnChild ([StdoutData (lit "partial")]
                                     ++ TimerExpires :: [ChildClose None]))
           (lit "call-1") (VObj []) false (lit "{}")
           [StdoutData (lit "partial")] [ChildClose None]
           eq_refl eq_refl eq_refl).
Defined.

(** X8: when the child reports a spawn error before anything settled the
    call, [execute] fulfils with the failure payload whose message is
    [String(err)] trimmed, or ["mcporter call exited with code null"] when
    that text is blank, and whose [stdout] is empty. *)
Theorem X8_spawn_error_is_reported (R : Runtime) (name path : jsstring)
    (spawn : spawner) (toolCallId : jsstring) (params : value) (signal : bool)
    (json : jsstring) (err : thrown) (before after : list event) :
  JSON_stringify (if isPlainObject params then params else VObj []) = inr json ->
  spawn resolveMcporterCommand
    (match path with
     | [] => []
     | _ :: _ => [lit "--config"; path]
     end ++ [lit "call"; name; lit "--args"; json])
  = SpawnChild (before ++ ChildError err :: after) ->
  settled (deliver_all MCPORTER_CALL_TIMEOUT_MS
             (start MCPORTER_CALL_TIMEOUT_MS signal) before) = None ->
  snd (execute name path spawn toolCallId params signal)
  = Fulfilled
      (jsonResult
         (VObj [(lit "error", VBool true);
                (lit "message",
                 VStr match Js.trim (String_of_thrown err) with
                      | [] => lit "mcporter call exited with code null"
                      | _ :: _ => Js.trim (String_of_thrown err)
                      end);
                (lit "stdout", VStr [])])).
Proof.
  intros Hj Hsp Hs.
  set (p := {| toolName := name;
               params := if isPlainObject params then params else VObj [];
               mcporterConfigPath := path; abortSignal := signal |}).
  rewrite (execute_of_outcome R name path spawn toolCallId params signal
             {| out_stdout := []; out_stderr := String_of_thrown err;
                out_code := None |}).
  - rewrite interpret_killed. unfold Js.or_else.
    destruct (Js.trim (String_of_thrown err)); reflexivity.
  - fold p. rewrite (runMcporterCall_with_argv R p spawn json Hj).
    cbn [p mcporterConfigPath toolName abortSignal]. rewrite Hsp.
    unfold promise_of. cbn [snd]. rewrite deliver_all_app.
    change (deliver_all ?t ?st (ChildError err :: after))
      with (deliver_all t (onError st err) after).
    rewrite (deliver_all_settled_stays _ after _ _
               (onError_unsettled _ err Hs)).
    reflexivity.
Qed.

Lemma X8_spawn_error_is_reported_witness :
  snd (@execute example_runtime (lit "search") []
         (fun _ _ => SpawnChild ([] ++ ChildError enoent :: []))
         (lit "call-1") VNull false)
  = Fulfilled
      (VObj [(lit "error", VBool true);
             (lit "message",
              VStr (lit "Error: ENOENT: no such file or directory"));
             (lit "stdout", VStr [])]).
Proof.
  exact (X8_spawn_error_is_reported example_runtime (lit "search") []
           (fun _ _ => SpawnChild ([] ++ ChildError enoent :: []))
           (lit "call-1") VNull false (lit "{}") enoent [] []
           eq_refl eq_refl eq_refl).
Defined.

(** ** Trimming *)

Lemma dropWhile_split {A} (p : A -> bool) (l : list A) :
  exists pre, l = pre ++ dropWhile p l.
Proof.
  induction l as [|x r [pre IH]]; simpl.
  - exists []. reflexivity.
  - destruct (p x).
    + exists (x :: pre). simpl. rewrite <- IH. reflexivity.
    + exists []. reflexivity.
Qed.

Lemma dropWhile_head {A} (p : A -> bool) (l r : list A) (x : A) :
  dropWhile p l = x :: r -> p x = false.
Proof.
  induction l as [|y l IH]; simpl; [discriminate|].
  destruct (p y) eqn:E; [exact IH|].
  intros H. injection H as -> _. exact E.
Qed.

Lemma dropWhile_fix {A} (p : A -> bool) (l : list A) :
  match l with [] => True | x :: _ => p x = false end ->
  dropWhile p l = l.
Proof. destruct l as [|x r]; simpl; [reflexivity|]. intros ->. reflexivity. Qed.

Lemma dropWhileEnd_prefix {A} (p : A -> bool) (l : list A) :
  exists suf, l = dropWhileEnd p l ++ suf.
Proof.
  unfold dropWhileEnd. destruct (dropWhile_split p (rev l)) as [pre H].
  exists (rev pre). rewrite <- rev_app_distr, <- H, rev_involutive.
  reflexivity.
Qed.

Lemma dropWhileEnd_last {A} (p : A -> bool) (l r : list A) (x : A) :
  dropWhileEnd p l = r ++ [x] -> p x = false.
Proof.
  unfold dropWhileEnd. intros H.
  apply (f_equal (@rev A)) in H.
  rewrite rev_involutive, rev_app_distr in H. simpl in H.
  exact (dropWhile_head p _ _ _ H).
Qed.

Lemma dropWhileEnd_fix {A} (p : A -> bool) (l : list A) :
  (forall r x, l = r ++ [x] -> p x = false) ->
  dropWhileEnd p l = l.
Proof.
  intros H. unfold dropWhileEnd.
  destruct l as [|y l'] using rev_ind; [reflexivity|].
  rewrite rev_app_distr. simpl. rewrite (H l' y eq_refl).
  simpl. rewrite rev_involutive. reflexivity.
Qed.

Lemma trimStart_dropWhile (s : jsstring) :
  Js.trimStart s = dropWhile Js.is_white_space s.
Proof.
  induction s as [|c r IH]; simpl; [reflexivity|].
  destruct (Js.is_white_space c); [exact IH|reflexivity].
Qed.

Lemma trim_dropWhile (s : jsstring) :
  Js.trim s
  = dropWhileEnd Js.is_white_space (dropWhile Js.is_white_space s).
Proof.
  unfold Js.trim, Js.trimEnd, dropWhileEnd.
  rewrite !trimStart_dropWhile. reflexivity.
Qed.

(** A trimmed text neither starts nor ends with white space. *)
Lemma trim_ends (s : jsstring) :
  match Js.trim s with [] => True | c :: _ => Js.is_white_space c = false end
  /\ (forall r c, Js.trim s = r ++ [c] -> Js.is_white_space c = false).
Proof.
  rewrite trim_dropWhile. split.
  - destruct (dropWhileEnd_prefix Js.is_white_space
                (dropWhile Js.is_white_space s)) as [suf H].
    destruct (dropWhileEnd _ _) as [|c t]; [exact I|].
    simpl in H. exact (dropWhile_head _ _ _ _ H).
  - intros r c. apply dropWhileEnd_last.
Qed.

Lemma trim_fix (s : jsstring) :
  match s with [] => True | c :: _ => Js.is_white_space c = false end ->
  (forall r c, s = r ++ [c] -> Js.is_white_space c = false) ->
  Js.trim s = s.
Proof.
  intros Hh Hl. rewrite trim_dropWhile.
  rewrite (dropWhile_fix _ s Hh). apply dropWhileEnd_fix. exact Hl.
Qed.

Lemma trim_idempotent (s : jsstring) : Js.trim (Js.trim s) = Js.trim s.
Proof. destruct (trim_ends s) as [Hh Hl]. apply trim_fix; assumption. Qed.

(** ** More on the default client tools loader *)

Lemma or_else_trimmed (a b : jsstring) :
  Js.trim b = b -> b <> [] ->
  Js.trim (Js.or_else (Js.trim a) b) = Js.or_else (Js.trim a) b
  /\ Js.or_else (Js.trim a) b <> [].
Proof.
  intros Hb Hne. unfold Js.or_else.
  destruct (Js.trim a) as [|c r] eqn:E; simpl.
  - split; assumption.
  - rewrite <- E. split; [apply trim_idempotent|].
    rewrite E. discriminate.
Qed.

(** X9: the path the loader works with is never empty and carries no white
    space around it, so paths that differ only by surrounding blanks share
    the cache entry; a config path that is not blank wins over the
    environment variable, and when neither is set to a non-blank text the
    path is [/app/config/default-client-tools.json]. *)
Theorem X9_resolved_path_is_normalized (cfg : OpenClawConfig) (w : world) :
  resolve_path cfg w <> []
  /\ Js.trim (resolve_path cfg w) = resolve_path cfg w
  /\ (forall g p,
        gateway cfg = Some g -> defaultClientToolsPath g = Some p ->
        Js.trim p <> [] -> resolve_path cfg w = Js.trim p)
  /\ ((forall g p,
         gateway cfg = Some g -> defaultClientToolsPath g = Some p ->
         Js.trim p = []) ->
      (forall p, env_path w = Some p -> Js.trim p = []) ->
      resolve_path cfg w = lit "/app/config/default-client-tools.json").
Proof.
  assert (Hd : Js.trim (lit "/app/config/default-client-tools.json")
               = lit "/app/config/default-client-tools.json") by reflexivity.
  assert (Hdn : lit "/app/config/default-client-tools.json" <> [])
    by discriminate.
  assert (He : Js.trim (trimmed_or (env_path w)
                          (lit "/app/config/default-client-tools.json"))
               = trimmed_or (env_path w)
                   (lit "/app/config/default-client-tools.json")
               /\ trimmed_or (env_path w)
                    (lit "/app/config/default-client-tools.json") <> []).
  { unfold trimmed_or. destruct (env_path w) as [p|].
    - apply or_else_trimmed; assumption.
    - split; assumption. }
  destruct He as [He Hen].
  unfold resolve_path.
  split; [|split; [|split]].
  - unfold trimmed_or at 1.
    destruct (gateway cfg) as [g|]; [|exact Hen].
    destruct (defaultClientToolsPath g) as [p|]; [|exact Hen].
    apply or_else_trimmed; assumption.
  - unfold trimmed_or at 1 3.
    destruct (gateway cfg) as [g|]; [|exact He].
    destruct (defaultClientToolsPath g) as [p|]; [|exact He].
    apply or_else_trimmed; assumption.
  - intros g p -> Hp Hne. rewrite Hp. unfold trimmed_or at 1.
    unfold Js.or_else. destruct (Js.trim p); [contradiction|reflexivity].
  - intros Hcfg Henv.
    assert (Hin : trimmed_or (env_path w)
                    (lit "/app/config/default-client-tools.json")
                  = lit "/app/config/default-client-tools.json").
    { unfold trimmed_or. destruct (env_path w) as [p|]; [|reflexivity].
      rewrite (Henv p eq_refl). reflexivity. }
    rewrite Hin. unfold trimmed_or.
    destruct (gateway cfg) as [g|]; [|reflexivity].
    destruct (defaultClientToolsPath g) as [p|] eqn:Hp; [|reflexivity].
    rewrite (Hcfg g p eq_refl Hp). reflexivity.
Qed.

Lemma X9_resolved_path_is_normalized_witness :
  resolve_path (config_path (lit "  /srv/tools.json ")) world_without_file
  = lit "/srv/tools.json"
  /\ resolve_path (config_path (lit "   ")) world_without_file
     = lit "/app/config/default-client-tools.json".
Proof.
  pose proof (X9_resolved_path_is_normalized
                (config_path (lit "  /srv/tools.json ")) world_without_file)
    as (_ & _ & Hwin & _).
  pose proof (X9_resolved_path_is_normalized
                (config_path (lit "   ")) world_without_file)
    as (_ & _ & _ & Hdefault).
  split.
  - exact (Hwin _ _ eq_refl eq_refl ltac:(discriminate)).
  - apply Hdefault.
    + intros g p Hg Hp. injection Hg as <-. injection Hp as <-. reflexivity.
    + intros p Hp. discriminate Hp.
Defined.

Lemma stored_tool_shaped (R : Runtime) (w : world) (path : jsstring) :
  Forall tool_shaped (stored R w path).
Proof.
  unfold stored. destruct (readFile w path) as [e|raw]; [constructor|].
  destruct (JSON_parse raw) as [e|parsed]; [constructor|].
  destruct (isClientToolDefinitionArray parsed) eqn:E; [|constructor].
  apply isClientToolDefinitionArray_spec in E.
  destruct E as (items & -> & Hall). exact Hall.
Qed.

Lemma load_keeps_cache_ok (R : Runtime) (cfg : OpenClawConfig) (w : world)
    (c : cache) :
  cache_ok c -> cache_ok (snd (fst (loadDefaultClientTools cfg w c))).
Proof.
  intros Hok.
  destruct (same_path (cachedPath c) (resolve_path cfg w)) eqn:Hp.
  - destruct (cached c) as [xs|] eqn:Hc.
    + rewrite (load_hit R cfg w c xs Hp Hc). exact Hok.
    + destruct (load_miss R cfg w c (or_intror Hc)) as [fx ->].
      apply stored_tool_shaped.
  - destruct (load_miss R cfg w c (or_introl Hp)) as [fx ->].
    apply stored_tool_shaped.
Qed.

Lemma history_cache_ok (R : Runtime) (ops : list cache_op) :
  cache_ok (cache_history R ops).
Proof.
  unfold cache_history.
  induction ops as [|op ops IH] using rev_ind; [exact I|].
  rewrite fold_left_app. simpl. destruct op as [cfg w|]; simpl.
  - apply load_keeps_cache_ok. exact IH.
  - exact I.
Qed.

(** X10: after any sequence of loads and cache clearings, in whatever file
    systems, a load that returns a list returns a non-empty list whose
    entries are all objects with a nested [function.name] string, also when
    the list comes from the cache. *)
Theorem X10_loaded_tools_are_well_shaped (R : Runtime) (ops : list cache_op)
    (cfg : OpenClawConfig) (w : world) (xs : list value) :
  snd (loadDefaultClientTools cfg w (cache_history R ops)) = inr (Some xs) ->
  xs <> [] /\ Forall tool_shaped xs.
Proof.
  intros Hr. pose proof (history_cache_ok R ops) as Hok.
  pose proof (load_keeps_cache_ok R cfg w _ Hok) as Hok'.
  destruct (load_never_throws R cfg w (cache_history R ops))
    as (fx & c' & res & Hl).
  rewrite Hl in Hr, Hok'. simpl in Hr, Hok'. injection Hr as ->.
  destruct (load_leaves_entry R cfg w _ c' fx (Some xs) Hl)
    as (ys & _ & Hc & Hne).
  unfold cache_ok in Hok'. rewrite Hc in Hok'.
  destruct ys as [|y ys]; [discriminate|].
  injection Hne as ->. split; [discriminate|exact Hok'].
Qed.

Lemma X10_loaded_tools_are_well_shaped_witness :
  let ops := [CallLoad config_default world_without_file; CallClear] in
  snd (@loadDefaultClientTools example_runtime config_default
         (world_with_file text_tools) (cache_history example_runtime ops))
  = inr (Some [search_tool])
  /\ Forall tool_shaped [search_tool].
Proof.
  split; [reflexivity|].
  exact (proj2 (X10_loaded_tools_are_well_shaped example_runtime
                  [CallLoad config_default world_without_file; CallClear]
                  config_default (world_with_file text_tools) [search_tool]
                  eq_refl)).
Defined.

(** X11: the cache holds the answer for one path only. After a load for a
    path and then a load for another path, a third load for the first path
    reads the file again and answers, and caches, what the file holds at
    that moment: the earlier answer is forgotten. *)
Theorem X11_cache_holds_one_path (R : Runtime)
    (cfg1 cfg2 cfg3 : OpenClawConfig) (w1 w2 w3 : world) (c : cache) :
  resolve_path cfg2 w2 <> resolve_path cfg1 w1 ->
  resolve_path cfg3 w3 = resolve_path cfg1 w1 ->
  let path := resolve_path cfg1 w1 in
  let c1 := snd (fst (loadDefaultClientTools cfg1 w1 c)) in
  let c2 := snd (fst (loadDefaultClientTools cfg2 w2 c1)) in
  exists fx,
    loadDefaultClientTools cfg3 w3 c2
    = (FsRead path :: fx,
       {| cached := Some (stored R w3 path); cachedPath := Some path |},
       inr (non_empty (stored R w3 path))).
Proof.
  intros Hother Hsame path c1 c2.
  destruct (load_never_throws R cfg2 w2 c1) as (fx2 & c2' & res2 & H2).
  destruct (load_leaves_entry R cfg2 w2 c1 c2' fx2 res2 H2)
    as (xs & Hp & _ & _).
  assert (Hc2 : c2 = c2') by (unfold c2; rewrite H2; reflexivity).
  assert (Hmiss : cache_miss c2 (resolve_path cfg3 w3)).
  { left. rewrite Hc2.
    destruct (same_path (cachedPath c2') (resolve_path cfg3 w3)) eqn:E;
      [|reflexivity].
    apply same_path_eq in E. rewrite Hp in E. injection E as E.
    rewrite Hsame in E. contradiction. }
  destruct (load_miss R cfg3 w3 c2 Hmiss) as [fx Hm].
  exists fx. rewrite Hm, Hsame. reflexivity.
Qed.

Lemma X11_cache_holds_one_path_witness :
  let cfg1 := config_path (lit "/a.json") in
  let cfg2 := config_path (lit "/b.json") in
  let c1 := snd (fst (@loadDefaultClientTools example_runtime cfg1
                        (world_with_file text_tools) empty_cache)) in
  let c2 := snd (fst (@loadDefaultClientTools example_runtime cfg2
                        (world_with_file text_tools) c1)) in
  resolve_path cfg2 (world_with_file text_tools)
  <> resolve_path cfg1 (world_with_file text_tools)
  /\ exists fx,
       fst (@loadDefaultClientTools example_runtime cfg1 world_without_file c2)
       = (FsRead (lit "/a.json") :: fx,
          {| cached := Some []; cachedPath := Some (lit "/a.json") |}).
Proof.
  assert (Hne : resolve_path (config_path (lit "/b.json"))
                  (world_with_file text_tools)
                <> resolve_path (config_path (lit "/a.json"))
                     (world_with_file text_tools))
    by discriminate.
  split; [exact Hne|].
  destruct (X11_cache_holds_one_path example_runtime
              (config_path (lit "/a.json")) (config_path (lit "/b.json"))
              (config_path (lit "/a.json"))
              (world_with_file text_tools) (world_with_file text_tools)
              world_without_file empty_cache Hne eq_refl) as [fx Hfx].
  exists fx. cbv zeta. rewrite Hfx. reflexivity.
Defined.

(** ** The workspace slug *)

Lemma dropWhile_Forall {A} (P : A -> Prop) (p : A -> bool) (l : list A) :
  Forall P l -> Forall P (dropWhile p l).
Proof.
  intros H. destruct (dropWhile_split p l) as [pre E].
  rewrite E in H. apply Forall_app in H. apply H.
Qed.

Lemma dropWhileEnd_Forall {A} (P : A -> Prop) (p : A -> bool) (l : list A) :
  Forall P l -> Forall P (dropWhileEnd p l).
Proof.
  intros H. destruct (dropWhileEnd_prefix p l) as [suf E].
  rewrite E in H. apply Forall_app in H. apply H.
Qed.

Lemma firstn_Forall {A} (P : A -> Prop) (n : nat) (l : list A) :
  Forall P l -> Forall P (firstn n l).
Proof.
  intros H. rewrite <- (firstn_skipn n l) in H.
  apply Forall_app in H. apply H.
Qed.

Lemma replace_runs_units (b : bool) (s : jsstring) :
  Forall slug_unit (Ui.replace_runs b s).
Proof.
  revert b. induction s as [|c r IH]; intros b; simpl; [constructor|].
  destruct (Ui.is_slug_char c) eqn:E.
  - constructor; [left; exact E | apply IH].
  - destruct b; [apply IH|]. constructor; [right; reflexivity | apply IH].
Qed.

Lemma strip_dashes_head (s r : jsstring) (c : N) :
  Ui.strip_dashes s = c :: r -> c <> Ui.dash.
Proof.
  unfold Ui.strip_dashes. intros E.
  destruct (dropWhileEnd_prefix Ui.is_dash (dropWhile Ui.is_dash s))
    as [suf H].
  rewrite E in H. simpl in H.
  pose proof (dropWhile_head _ _ _ _ H) as Hd.
  intros ->. discriminate Hd.
Qed.

(** X12: whatever the name, the workspace slug is not empty, has at most 48
    code units, consists of the letters [a-z], the digits and the dash only,
    and does not start with a dash. *)
Theorem X12_slug_is_safe (C : Ui.Casing) (name : jsstring) :
  let slug := Ui.toWorkspaceSlug name in
  slug <> []
  /\ Js.length slug <= 48
  /\ Forall slug_unit slug
  /\ hd_error slug <> Some Ui.dash.
Proof.
  cbv zeta. unfold Ui.toWorkspaceSlug.
  set (body := Ui.strip_dashes
                 (Ui.replace_runs false (Ui.toLowerCase name))).
  assert (Hunits : Forall slug_unit (Js.slice body 0 48)).
  { rewrite slice_prefix by lia. apply firstn_Forall.
    unfold body, Ui.strip_dashes.
    apply dropWhileEnd_Forall, dropWhile_Forall, replace_runs_units. }
  assert (Hlen : Js.length (Js.slice body 0 48) <= 48)
    by (apply length_slice_le; lia).
  assert (Hhead : hd_error (Js.slice body 0 48) <> Some Ui.dash).
  { rewrite slice_prefix by lia.
    replace (Z.to_nat 48) with 48%nat by reflexivity.
    destruct body as [|c r] eqn:Eb; [discriminate|].
    simpl. intros E. injection E as E.
    exact (strip_dashes_head _ _ _ Eb E). }
  unfold Js.or_else.
  destruct (Js.slice body 0 48) as [|c r] eqn:Es; simpl.
  - split; [discriminate|]. split; [discriminate|].
    split; [|discriminate].
    repeat constructor; left; reflexivity.
  - split; [discriminate|]. split; [exact Hlen|].
    split; [exact Hunits | exact Hhead].
Qed.

Lemma replace_runs_no_unit (s : jsstring) :
  Forall (fun c => Ui.is_slug_char c = false) s ->
  Ui.replace_runs true s = []
  /\ (Ui.replace_runs false s = [] \/ Ui.replace_runs false s = [Ui.dash]).
Proof.
  induction 1 as [|c r Hc _ [IHt IHf]]; simpl.
  - split; [reflexivity|left; reflexivity].
  - rewrite Hc, IHt. split; [reflexivity|right; reflexivity].
Qed.

(** X13: a name that has no ASCII letter or digit left after lower-casing
    (an empty name, blanks, punctuation, other scripts) gets the slug
    ["agent"]: all such names share one workspace. *)
Theorem X13_slug_defaults_to_agent (C : Ui.Casing) (name : jsstring) :
  Forall (fun c => Ui.is_slug_char c = false) (Ui.toLowerCase name) ->
  Ui.toWorkspaceSlug name = lit "agent".
Proof.
  intros H. unfold Ui.toWorkspaceSlug.
  destruct (replace_runs_no_unit _ H) as [_ [-> | ->]]; reflexivity.
Qed.

Lemma X13_slug_defaults_to_agent_witness :
  @Ui.toWorkspaceSlug example_casing (lit "?! ... !?") = lit "agent".
Proof.
  apply (X13_slug_defaults_to_agent example_casing (lit "?! ... !?")).
  repeat constructor.
Defined.

Example slug_of_name :
  @Ui.toWorkspaceSlug example_casing (lit "  My Agent #1 ") = lit "my-agent-1".
Proof. reflexivity. Qed.

(** The cut at 48 comes after the stripping: the slug can end with a dash. *)
Example slug_can_end_with_dash :
  @Ui.toWorkspaceSlug example_casing (letters 47 ++ lit " b")
  = letters 47 ++ lit "-".
Proof. reflexivity. Qed.

(** ** The agents controller *)

Lemma loadAgents_idle (st : Ui.AgentsState) :
  agents_ready st = false -> Ui.loadAgents st = ([], st, inr tt).
Proof.
  unfold agents_ready, Ui.loadAgents, Ui.loadAgents_enter. ui_ops.
  destruct (Ui.client st) as [c|]; [|reflexivity].
  destruct (Ui.connected st); [|reflexivity].
  destruct (Ui.agentsLoading st); [reflexivity|discriminate].
Qed.

Lemma loadAgents_run (st : Ui.AgentsState) (c : Ui.GatewayBrowserClient) :
  Ui.client st = Some c -> agents_ready st = true ->
  Ui.loadAgents st
  = ([(lit "agents.list", VObj [])],
     Ui.set_agentsLoading false
       match Ui.request_agents_list c (VObj []) with
       | inl e =>
           Ui.set_agentsError (Some (String_of_thrown e)) (agents_in_flight st)
       | inr None => agents_in_flight st
       | inr (Some res) =>
           if Ui.truthy_id (Ui.agentsSelectedId st)
              && existsb (Ui.id_is (Ui.agentsSelectedId st)) (Ui.agents res)
           then Ui.set_agentsList (Some res) (agents_in_flight st)
           else Ui.set_agentsSelectedId (Ui.fallback_id res)
                  (Ui.set_agentsList (Some res) (agents_in_flight st))
       end,
     inr tt).
Proof.
  intros Hc Hr. unfold agents_ready in Hr. rewrite Hc in Hr.
  apply andb_true_iff in Hr. destruct Hr as [Hconn Hload].
  apply negb_true_iff in Hload.
  unfold Ui.loadAgents, Ui.loadAgents_enter, Ui.loadAgents_request.
  ui_ops. rewrite Hc, Hconn, Hload. cbn -[lit String_of_thrown].
  rewrite Hc.
  destruct (Ui.request_agents_list c (VObj [])) as [e|[res|]];
    cbn -[lit String_of_thrown]; try reflexivity.
  destruct (Ui.truthy_id (Ui.agentsSelectedId st));
    destruct (existsb (Ui.id_is (Ui.agentsSelectedId st)) (Ui.agents res));
    reflexivity.
Qed.

(** X14: [loadAgents] does nothing, and sends nothing, without a client,
    when disconnected, and when a load is already in flight; in particular a
    second call made while the first one awaits its answer (in the state
    the first call left before its request) changes nothing. *)
Theorem X14_loadAgents_guards (st : Ui.AgentsState) :
  (Ui.client st = None \/ Ui.connected st = false
   \/ Ui.agentsLoading st = true ->
   Ui.loadAgents st = ([], st, inr tt))
  /\ (forall st1,
        Ui.loadAgents_enter st = ([], st1, inr true) ->
        st1 = agents_in_flight st
        /\ Ui.loadAgents st1 = ([], st1, inr tt)).
Proof.
  split.
  - intros H. apply loadAgents_idle. unfold agents_ready.
    destruct (Ui.client st) as [c|]; [|reflexivity].
    destruct H as [H | [-> | ->]]; [discriminate|reflexivity|].
    apply andb_false_r.
  - intros st1. unfold Ui.loadAgents_enter. ui_ops.
    destruct (Ui.client st) as [c|] eqn:Hc; [|discriminate].
    destruct (Ui.connected st); [|discriminate].
    destruct (Ui.agentsLoading st); [discriminate|].
    cbn. intros E. injection E as <-. split; [reflexivity|].
    apply loadAgents_idle. unfold agents_ready. cbn. rewrite Hc.
    apply andb_false_r.
Qed.

Lemma X14_loadAgents_guards_witness :
  let st := {| Ui.client := None; Ui.connected := true;
               Ui.agentsLoading := false; Ui.agentsCreating := None;
               Ui.agentsError := Some (lit "old");
               Ui.agentsList := None; Ui.agentsSelectedId := None;
               Ui.toolsCatalogLoading := false;
               Ui.toolsCatalogError := None;
               Ui.toolsCatalogResult := None |} in
  Ui.loadAgents st = ([], st, inr tt).
Proof.
  apply X14_loadAgents_guards. left. reflexivity.
Defined.

Lemma ready_iff (st : Ui.AgentsState) (c : Ui.GatewayBrowserClient) :
  Ui.client st = Some c -> Ui.connected st = true ->
  Ui.agentsLoading st = false -> agents_ready st = true.
Proof.
  intros Hc Hconn Hload. unfold agents_ready.
  rewrite Hc, Hconn, Hload. reflexivity.
Qed.

(** X15: a [loadAgents] that passes its guards sends exactly one request,
    [agents.list] with empty params, never rejects and always ends with
    [agentsLoading] false. When the request fails the error text is stored
    and the list and the selection are kept; when the answer is empty the
    error is cleared and the list and the selection are kept; when there is
    an answer it becomes the list, the error is cleared, and the selection
    is kept if it is a non-empty id of a listed agent and otherwise becomes
    the default id, else the first agent's id, else [null]. *)
Theorem X15_loadAgents_outcome (st : Ui.AgentsState)
    (c : Ui.GatewayBrowserClient) :
  Ui.client st = Some c -> Ui.connected st = true ->
  Ui.agentsLoading st = false ->
  exists st',
    Ui.loadAgents st = ([(lit "agents.list", VObj [])], st', inr tt)
    /\ Ui.agentsLoading st' = false
    /\ match Ui.request_agents_list c (VObj []) with
       | inl e =>
           Ui.agentsError st' = Some (String_of_thrown e)
           /\ Ui.agentsList st' = Ui.agentsList st
           /\ Ui.agentsSelectedId st' = Ui.agentsSelectedId st
       | inr None =>
           Ui.agentsError st' = None
           /\ Ui.agentsList st' = Ui.agentsList st
           /\ Ui.agentsSelectedId st' = Ui.agentsSelectedId st
       | inr (Some res) =>
           Ui.agentsError st' = None
           /\ Ui.agentsList st' = Some res
           /\ Ui.agentsSelectedId st'
              = if Ui.truthy_id (Ui.agentsSelectedId st)
                   && existsb (Ui.id_is (Ui.agentsSelectedId st))
                        (Ui.agents res)
                then Ui.agentsSelectedId st
                else Ui.fallback_id res
       end.
Proof.
  intros Hc Hconn Hload.
  rewrite (loadAgents_run st c Hc (ready_iff st c Hc Hconn Hload)).
  eexists. split; [reflexivity|]. split; [reflexivity|].
  destruct (Ui.request_agents_list c (VObj [])) as [e|[res|]];
    try (repeat split; reflexivity).
  destruct (Ui.truthy_id (Ui.agentsSelectedId st)
            && existsb (Ui.id_is (Ui.agentsSelectedId st)) (Ui.agents res));
    repeat split; reflexivity.
Qed.

Lemma X15_loadAgents_outcome_witness :
  let st := idle_state (failing_gateway (lit "gateway closed"))
              (Some (lit "main")) in
  exists st',
    Ui.loadAgents st = ([(lit "agents.list", VObj [])], st', inr tt)
    /\ Ui.agentsLoading st' = false
    /\ Ui.agentsError st' = Some (lit "gateway closed")
    /\ Ui.agentsSelectedId st' = Some (lit "main").
Proof.
  destruct (X15_loadAgents_outcome
              (idle_state (failing_gateway (lit "gateway closed"))
                 (Some (lit "main")))
              (failing_gateway (lit "gateway closed"))
              eq_refl eq_refl eq_refl) as (st' & Hrun & Hload & Herr & _ & Hsel).
  exists st'. repeat split; assumption.
Defined.

Lemma known_iff (id : jsstring) (entries : list Ui.AgentEntry) :
  existsb (Ui.id_is (Some id)) entries = true
  <-> In id (map Ui.entry_id entries).
Proof.
  rewrite existsb_exists, in_map_iff. split.
  - intros (e & Hin & He). simpl in He. apply eqb_eq in He.
    exists e. split; assumption.
  - intros (e & He & Hin). exists e. split; [exact Hin|].
    simpl. apply eqb_eq. exact He.
Qed.

(** X16: after a [loadAgents] that received a list, a selected agent that
    is still listed stays selected; a selection that is empty or no longer
    listed is replaced by the default id of the answer when it has one; and
    without a default id the selection is the id of a listed agent whenever
    the list is not empty, and [null] only when the list is empty. *)
Theorem X16_selection_follows_list (st : Ui.AgentsState)
    (c : Ui.GatewayBrowserClient) (res : Ui.AgentsListResult) :
  Ui.client st = Some c -> Ui.connected st = true ->
  Ui.agentsLoading st = false ->
  Ui.request_agents_list c (VObj []) = inr (Some res) ->
  let st' := snd (fst (Ui.loadAgents st)) in
  (forall id,
     Ui.agentsSelectedId st = Some id -> id <> [] ->
     In id (map Ui.entry_id (Ui.agents res)) ->
     Ui.agentsSelectedId st' = Some id)
  /\ (forall d,
        Ui.defaultId res = Some d ->
        (forall id, Ui.agentsSelectedId st = Some id ->
                    id = [] \/ ~ In id (map Ui.entry_id (Ui.agents res))) ->
        Ui.agentsSelectedId st' = Some d)
  /\ (Ui.defaultId res = None ->
      match Ui.agentsSelectedId st' with
      | Some id => In id (map Ui.entry_id (Ui.agents res))
      | None => Ui.agents res = []
      end).
Proof.
  intros Hc Hconn Hload Hres st'.
  assert (Hsel : Ui.agentsSelectedId st'
                 = if Ui.truthy_id (Ui.agentsSelectedId st)
                      && existsb (Ui.id_is (Ui.agentsSelectedId st))
                           (Ui.agents res)
                   then Ui.agentsSelectedId st
                   else Ui.fallback_id res).
  { unfold st'.
    rewrite (loadAgents_run st c Hc (ready_iff st c Hc Hconn Hload)), Hres.
    cbn [fst snd].
    destruct (Ui.truthy_id (Ui.agentsSelectedId st)
              && existsb (Ui.id_is (Ui.agentsSelectedId st)) (Ui.agents res));
      reflexivity. }
  rewrite Hsel. clear Hsel. split; [|split].
  - intros id Hid Hne Hin. rewrite Hid.
    apply known_iff in Hin. rewrite Hin.
    destruct id; [contradiction|reflexivity].
  - intros d Hd Hstale. unfold Ui.fallback_id. rewrite Hd.
    destruct (Ui.agentsSelectedId st) as [id|] eqn:Hid; [|reflexivity].
    destruct (Hstale id eq_refl) as [-> | Hnot]; [reflexivity|].
    destruct (existsb (Ui.id_is (Some id)) (Ui.agents res)) eqn:E.
    + apply known_iff in E. contradiction.
    + rewrite andb_false_r. reflexivity.
  - intros Hnd.
    destruct (Ui.truthy_id (Ui.agentsSelectedId st)
              && existsb (Ui.id_is (Ui.agentsSelectedId st)) (Ui.agents res))
      eqn:E.
    + apply andb_true_iff in E. destruct E as [Ht Hk].
      destruct (Ui.agentsSelectedId st) as [id|]; [|discriminate].
      apply known_iff. exact Hk.
    + unfold Ui.fallback_id. rewrite Hnd.
      destruct (Ui.agents res) as [|e r]; [reflexivity|].
      simpl. left. reflexivity.
Qed.

Lemma X16_selection_follows_list_witness :
  Ui.agentsSelectedId
    (snd (fst (Ui.loadAgents
                 (idle_state example_gateway (Some (lit "helper"))))))
  = Some (lit "helper")
  /\ In (lit "helper") [lit "main"; lit "helper"].
Proof.
  assert (Hin : In (lit "helper") [lit "main"; lit "helper"])
    by (right; left; reflexivity).
  split; [|exact Hin].
  exact (proj1 (X16_selection_follows_list
                  (idle_state example_gateway (Some (lit "helper")))
                  example_gateway _ eq_refl eq_refl eq_refl eq_refl)
           (lit "helper") eq_refl ltac:(discriminate) Hin).
Defined.

Lemma loadAgents_frame (st : Ui.AgentsState) :
  exists st',
    Ui.loadAgents st
    = (if agents_ready st then [(lit "agents.list", VObj [])] else [],
       st', inr tt)
    /\ Ui.agentsCreating st' = Ui.agentsCreating st
    /\ Ui.agentsLoading st' = Ui.agentsLoading st
    /\ (agents_ready st = false -> st' = st).
Proof.
  destruct (agents_ready st) eqn:Hr.
  - unfold agents_ready in Hr.
    destruct (Ui.client st) as [c|] eqn:Hc; [|discriminate].
    assert (Hr' : agents_ready st = true)
      by (unfold agents_ready; rewrite Hc; exact Hr).
    apply andb_true_iff in Hr. destruct Hr as [_ Hl].
    apply negb_true_iff in Hl.
    rewrite (loadAgents_run st c Hc Hr').
    eexists. split; [reflexivity|].
    split; [|split; [|discriminate]].
    + destruct (Ui.request_agents_list c (VObj [])) as [e|[res|]];
        try reflexivity.
      destruct (Ui.truthy_id (Ui.agentsSelectedId st)
                && existsb (Ui.id_is (Ui.agentsSelectedId st))
                     (Ui.agents res)); reflexivity.
    + rewrite Hl. reflexivity.
  - rewrite (loadAgents_idle st Hr). exists st. repeat split.
Qed.

Lemma createAgent_run (C : Ui.Casing) (name : jsstring) (role : option jsstring)
    (st : Ui.AgentsState) (c : Ui.GatewayBrowserClient) :
  Ui.client st = Some c -> Ui.connected st = true ->
  Js.trim name <> [] -> Ui.is_creating st = false ->
  Ui.createAgent name role st
  = match Ui.request_agents_create c (create_params C name role) with
    | inl e =>
        ([(lit "agents.create", create_params C name role)],
         Ui.set_agentsCreating (Some false)
           (Ui.set_agentsError (Some (String_of_thrown e)) (creating st)),
         inr tt)
    | inr result =>
        (((lit "agents.create", create_params C name role)
          :: fst (fst (Ui.loadAgents (creating st)))),
         Ui.set_agentsCreating (Some false)
           (if Ui.truthy_id (Ui.created_id result)
            then Ui.set_agentsSelectedId (Ui.created_id result)
                   (snd (fst (Ui.loadAgents (creating st))))
            else snd (fst (Ui.loadAgents (creating st)))),
         inr tt)
    end.
Proof.
  intros Hc Hconn Hname Hcr. unfold Ui.createAgent. ui_ops.
  rewrite Hc, Hconn. cbn [negb].
  destruct (Js.trim name) as [|x r] eqn:Et; [contradiction|].
  cbn [Js.truthy negb]. rewrite Hcr.
  cbn [fst snd app Ui.client Ui.set_agentsError Ui.set_agentsCreating].
  rewrite Hc. unfold create_params. rewrite Et.
  destruct (Ui.request_agents_create c _) as [e|result]; [reflexivity|].
  fold (creating st).
  destruct (loadAgents_frame (creating st)) as (st2 & -> & _).
  cbn [fst snd app].
  destruct (Ui.truthy_id (Ui.created_id result));
    cbn [fst snd app]; rewrite !app_nil_r; reflexivity.
Qed.

(** X17: [createAgent] does nothing without a client or when disconnected;
    with a client and a connection, a name that is blank after trimming is
    refused with the error ["Agent name is required."], nothing is sent to
    the gateway, and this happens also while another creation is in
    flight. *)
Theorem X17_createAgent_refuses_blank_name (C : Ui.Casing) (name : jsstring)
    (role : option jsstring) (st : Ui.AgentsState) :
  (Ui.client st = None \/ Ui.connected st = false ->
   Ui.createAgent name role st = ([], st, inr tt))
  /\ (Ui.client st <> None -> Ui.connected st = true -> Js.trim name = [] ->
      Ui.createAgent name role st
      = ([], Ui.set_agentsError (Some (lit "Agent name is required.")) st,
         inr tt)).
Proof.
  unfold Ui.createAgent. ui_ops. split.
  - intros [Hc | Hconn].
    + rewrite Hc. reflexivity.
    + destruct (Ui.client st); [|reflexivity]. rewrite Hconn. reflexivity.
  - intros Hc Hconn Hname.
    destruct (Ui.client st); [|contradiction].
    rewrite Hconn, Hname. reflexivity.
Qed.

Lemma X17_createAgent_refuses_blank_name_witness :
  let st := Ui.set_agentsCreating (Some true)
              (idle_state example_gateway None) in
  Ui.client st <> None /\ Js.trim (lit "   ") = []
  /\ @Ui.createAgent example_casing (lit "   ") None st
     = ([], Ui.set_agentsError (Some (lit "Agent name is required.")) st,
        inr tt).
Proof.
  assert (Hc : Ui.client (Ui.set_agentsCreating (Some true)
                            (idle_state example_gateway None)) <> None)
    by discriminate.
  split; [exact Hc|]. split; [reflexivity|].
  exact (proj2 (X17_createAgent_refuses_blank_name example_casing (lit "   ")
                  None _) Hc eq_refl eq_refl).
Defined.

(** X18: a [createAgent] with a usable name that no creation blocks sends
    [agents.create] with the trimmed name, the workspace
    [~/.openclaw/workspace-<slug of the trimmed name>] and the trimmed role
    when it is not blank. When the gateway answers with a non-empty
    [agentId] string, the agents are reloaded (one [agents.list] request,
    unless a load was in flight) and the created agent is selected, whatever
    that reload answered; [agentsCreating] ends as false and the promise is
    fulfilled. *)
Theorem X18_createAgent_selects_created (C : Ui.Casing) (name : jsstring)
    (role : option jsstring) (st : Ui.AgentsState)
    (c : Ui.GatewayBrowserClient) (result : value) (id : jsstring) :
  Ui.client st = Some c -> Ui.connected st = true ->
  Js.trim name <> [] -> Ui.is_creating st = false ->
  Ui.request_agents_create c (create_params C name role) = inr result ->
  get result (lit "agentId") = VStr id -> id <> [] ->
  exists st',
    Ui.createAgent name role st
    = ((lit "agents.create", create_params C name role)
       :: (if Ui.agentsLoading st then []
           else [(lit "agents.list", VObj [])]),
       st', inr tt)
    /\ Ui.agentsSelectedId st' = Some id
    /\ Ui.agentsCreating st' = Some false
    /\ Ui.agentsLoading st' = Ui.agentsLoading st.
Proof.
  intros Hc Hconn Hname Hcr Hreq Hid Hne.
  rewrite (createAgent_run C name role st c Hc Hconn Hname Hcr), Hreq.
  unfold Ui.created_id. rewrite Hid.
  destruct id as [|x r]; [contradiction|]. cbn [Ui.truthy_id Js.truthy].
  destruct (loadAgents_frame (creating st)) as (st2 & Hl & _ & Hload & _).
  rewrite Hl. cbn [fst snd].
  assert (Hready : agents_ready (creating st) = negb (Ui.agentsLoading st)).
  { unfold agents_ready.
    cbn [creating Ui.client Ui.connected Ui.agentsLoading
         Ui.set_agentsError Ui.set_agentsCreating].
    rewrite Hc, Hconn. reflexivity. }
  rewrite Hready.
  exists (Ui.set_agentsCreating (Some false)
            (Ui.set_agentsSelectedId (Some (x :: r)) st2)).
  split; [destruct (Ui.agentsLoading st); reflexivity|].
  split; [reflexivity|]. split; [reflexivity|].
  cbn [Ui.agentsLoading Ui.set_agentsCreating Ui.set_agentsSelectedId].
  rewrite Hload. reflexivity.
Qed.

Lemma X18_createAgent_selects_created_witness :
  exists st',
    @Ui.createAgent example_casing (lit " Web Helper ") (Some (lit " dev "))
      (idle_state example_gateway (Some (lit "main")))
    = ([(lit "agents.create",
         VObj [(lit "name", VStr (lit "Web Helper"));
               (lit "workspace",
                VStr (lit "~/.openclaw/workspace-web-helper"));
               (lit "role", VStr (lit "dev"))]);
        (lit "agents.list", VObj [])],
       st', inr tt)
    /\ Ui.agentsSelectedId st' = Some (lit "w-1")
    /\ Ui.agentsList st'
       = Some {| Ui.defaultId := None;
                 Ui.agents := [agent (lit "main"); agent (lit "helper")];
                 Ui.list_data := VObj [] |}.
Proof.
  destruct (X18_createAgent_selects_created example_casing (lit " Web Helper ")
              (Some (lit " dev "))
              (idle_state example_gateway (Some (lit "main")))
              example_gateway _ (lit "w-1")
              eq_refl eq_refl ltac:(discriminate) eq_refl eq_refl eq_refl
              ltac:(discriminate)) as (st' & Hrun & Hsel & _).
  exists st'. split; [exact Hrun|]. split; [exact Hsel|].
  apply (f_equal (fun r => Ui.agentsList (snd (fst r)))) in Hrun.
  cbn [fst snd] in Hrun. rewrite <- Hrun. reflexivity.
Defined.

(** X19: when the [agents.create] request fails, [createAgent] stores the
    text of the error, does not reload the agents (it sends nothing more),
    keeps the list and the selection, ends with [agentsCreating] false, and
    its promise is fulfilled, not rejected. *)
Theorem X19_createAgent_failure (C : Ui.Casing) (name : jsstring)
    (role : option jsstring) (st : Ui.AgentsState)
    (c : Ui.GatewayBrowserClient) (e : thrown) :
  Ui.client st = Some c -> Ui.connected st = true ->
  Js.trim name <> [] -> Ui.is_creating st = false ->
  Ui.request_agents_create c (create_params C name role) = inl e ->
  exists st',
    Ui.createAgent name role st
    = ([(lit "agents.create", create_params C name role)], st', inr tt)
    /\ Ui.agentsError st' = Some (String_of_thrown e)
    /\ Ui.agentsCreating st' = Some false
    /\ Ui.agentsList st' = Ui.agentsList st
    /\ Ui.agentsSelectedId st' = Ui.agentsSelectedId st
    /\ Ui.agentsLoading st' = Ui.agentsLoading st.
Proof.
  intros Hc Hconn Hname Hcr Hreq.
  rewrite (createAgent_run C name role st c Hc Hconn Hname Hcr), Hreq.
  eexists. repeat split.
Qed.

Lemma X19_createAgent_failure_witness :
  exists st',
    @Ui.createAgent example_casing (lit "bot") None
      (idle_state (failing_gateway (lit "denied")) (Some (lit "main")))
    = ([(lit "agents.create",
         VObj [(lit "name", VStr (lit "bot"));
               (lit "workspace", VStr (lit "~/.openclaw/workspace-bot"))])],
       st', inr tt)
    /\ Ui.agentsError st' = Some (lit "denied")
    /\ Ui.agentsSelectedId st' = Some (lit "main").
Proof.
  destruct (X19_createAgent_failure example_casing (lit "bot") None
              (idle_state (failing_gateway (lit "denied")) (Some (lit "main")))
              (failing_gateway (lit "denied")) (ThrownPrimitive (lit "denied"))
              eq_refl eq_refl ltac:(discriminate) eq_refl eq_refl)
    as (st' & Hrun & Herr & _ & _ & Hsel & _).
  exists st'. repeat split; assumption.
Defined.

(** X20: a [loadToolsCatalog] that passes its guards sends one
    [tools.catalog] request whose [agentId] is the given id when there is
    one (an empty string included), else the selected agent, else
    [undefined], with [includePlugins] true. It never rejects and ends with
    [toolsCatalogLoading] false; a failure stores the error text and keeps
    the previous catalog, a falsy answer keeps the previous catalog, and any
    other answer becomes the catalog. The agents list and the selection are
    not touched. *)
Theorem X20_loadToolsCatalog_outcome (agentId : option jsstring)
    (st : Ui.AgentsState) (c : Ui.GatewayBrowserClient) :
  Ui.client st = Some c -> Ui.connected st = true ->
  Ui.toolsCatalogLoading st = false ->
  let params :=
    VObj [(lit "agentId",
           match agentId with
           | Some a => VStr a
           | None =>
               match Ui.agentsSelectedId st with
               | Some s => VStr s
               | None => VUndefined
               end
           end);
          (lit "includePlugins", VBool true)] in
  exists st',
    Ui.loadToolsCatalog agentId st
    = ([(lit "tools.catalog", params)], st', inr tt)
    /\ Ui.toolsCatalogLoading st' = false
    /\ Ui.agentsList st' = Ui.agentsList st
    /\ Ui.agentsSelectedId st' = Ui.agentsSelectedId st
    /\ match Ui.request_tools_catalog c params with
       | inl e =>
           Ui.toolsCatalogError st' = Some (String_of_thrown e)
           /\ Ui.toolsCatalogResult st' = Ui.toolsCatalogResult st
       | inr res =>
           Ui.toolsCatalogError st' = None
           /\ Ui.toolsCatalogResult st'
              = if truthy res then Some res else Ui.toolsCatalogResult st
       end.
Proof.
  intros Hc Hconn Hload params. unfold Ui.loadToolsCatalog. ui_ops.
  rewrite Hc, Hconn, Hload.
  cbn [negb fst snd app Ui.client Ui.agentsSelectedId
       Ui.set_toolsCatalogLoading Ui.set_toolsCatalogError].
  rewrite Hc. fold (Ui.catalog_agent agentId (Ui.agentsSelectedId st)).
  change (VObj [(lit "agentId",
                 Ui.catalog_agent agentId (Ui.agentsSelectedId st));
                (lit "includePlugins", VBool true)]) with params.
  destruct (Ui.request_tools_catalog c params) as [e|res].
  - eexists. split; [reflexivity|]. repeat split.
  - destruct (truthy res); eexists; (split; [reflexivity|]); repeat split.
Qed.

Lemma X20_loadToolsCatalog_outcome_witness :
  exists st',
    Ui.loadToolsCatalog (Some [])
      (idle_state example_gateway (Some (lit "main")))
    = ([(lit "tools.catalog",
         VObj [(lit "agentId", VStr []);
               (lit "includePlugins", VBool true)])],
       st', inr tt)
    /\ Ui.toolsCatalogLoading st' = false.
Proof.
  destruct (X20_loadToolsCatalog_outcome (Some [])
              (idle_state example_gateway (Some (lit "main")))
              example_gateway eq_refl eq_refl eq_refl)
    as (st' & Hrun & Hload & _).
  exists st'. split; assumption.
Defined.

(** ** The chat models controller *)

Lemma to_chat_model_normal (m : value) (model : Ui.ChatModel) :
  Ui.to_chat_model m = Some model -> normal_model model.
Proof.
  unfold Ui.to_chat_model, Ui.trimmed_string.
  destruct (get m (lit "provider")) as [| |b|n|p|a|o]; try discriminate.
  destruct (Js.trim p) as [|x r] eqn:Ep; [discriminate|].
  destruct (get m (lit "id")) as [| |b|n|i|a|o]; try discriminate.
  destruct (Js.trim i) as [|y t] eqn:Ei; [discriminate|].
  cbn [Js.truthy negb orb]. intros E. injection E as <-.
  unfold normal_model. cbn [Ui.provider Ui.model_id Ui.model_name].
  rewrite <- Ep, <- Ei. repeat split.
  - rewrite Ep. discriminate.
  - rewrite Ei. discriminate.
  - apply trim_idempotent.
  - apply trim_idempotent.
  - intros nm. destruct (get m (lit "name")); try discriminate.
    intros E. injection E as <-. apply trim_idempotent.
Qed.

Lemma chat_models_normal (raw : list value) :
  Forall normal_model (Ui.chat_models raw)
  /\ (List.length (Ui.chat_models raw) <= List.length raw)%nat.
Proof.
  induction raw as [|m rest [IH IHl]]; simpl; [split; [constructor|lia]|].
  destruct (Ui.to_chat_model m) as [model|] eqn:E; simpl.
  - split; [|lia]. constructor; [|exact IH].
    exact (to_chat_model_normal m model E).
  - split; [exact IH|lia].
Qed.

(** The stored models, entry by entry: an entry is kept when its provider
    and its id are strings that are not blank, as the model with both
    trimmed and with the trimmed name when the name is a string. *)
Lemma chat_models_entries (raw : list value) :
  Ui.chat_models raw
  = flat_map
      (fun m =>
         match get m (lit "provider"), get m (lit "id") with
         | VStr p, VStr i =>
             match Js.trim p, Js.trim i with
             | _ :: _, _ :: _ =>
                 [{| Ui.provider := Js.trim p;
                     Ui.model_id := Js.trim i;
                     Ui.model_name :=
                       match get m (lit "name") with
                       | VStr n => Some (Js.trim n)
                       | _ => None
                       end |}]
             | _, _ => []
             end
         | _, _ => []
         end)
      raw.
Proof.
  induction raw as [|m rest IH]; [reflexivity|].
  cbn [Ui.chat_models flat_map]. rewrite IH.
  unfold Ui.to_chat_model, Ui.trimmed_string.
  destruct (get m (lit "provider")) as [| |b|n|p|a|o];
    destruct (get m (lit "id")) as [| |b'|n'|i|a'|o']; try reflexivity;
    try (destruct (Js.trim p); reflexivity).
  destruct (Js.trim p); destruct (Js.trim i); reflexivity.
Qed.

(** X21: when the gateway answers [models.list], [loadChatModels] replaces
    the list by the entries of the answer's [models] array, in their order,
    that have a string provider and a string id, both not blank, each as
    the model with provider, id and name trimmed, and by nothing else:
    every stored model has a non-empty provider and id without surrounding
    white space, no entry is invented, and an answer without a [models]
    array stores the empty list. The loading flag ends false. *)
Theorem X21_loadChatModels_normalizes (st : Ui.ChatModelsListState)
    (c : Ui.GatewayBrowserClient) (res : value) :
  Ui.models_client st = Some c -> Ui.models_connected st = true ->
  Ui.chatModelsListLoading st = false ->
  Ui.request_models_list c (VObj []) = inr res ->
  exists st' models,
    Ui.loadChatModels st = ([(lit "models.list", VObj [])], st', inr tt)
    /\ Ui.chatModelsList st' = Some models
    /\ Ui.chatModelsListLoading st' = false
    /\ Ui.models_client st' = Ui.models_client st
    /\ Ui.models_connected st' = Ui.models_connected st
    /\ models
       = flat_map
           (fun m =>
              match get m (lit "provider"), get m (lit "id") with
              | VStr p, VStr i =>
                  match Js.trim p, Js.trim i with
                  | _ :: _, _ :: _ =>
                      [{| Ui.provider := Js.trim p;
                          Ui.model_id := Js.trim i;
                          Ui.model_name :=
                            match get m (lit "name") with
                            | VStr n => Some (Js.trim n)
                            | _ => None
                            end |}]
                  | _, _ => []
                  end
              | _, _ => []
              end)
           match get res (lit "models") with
           | VArr items => items
           | _ => []
           end
    /\ Forall normal_model models
    /\ (List.length models <= List.length (Ui.raw_models res))%nat
    /\ ((forall items, get res (lit "models") <> VArr items) -> models = []).
Proof.
  intros Hc Hconn Hload Hres. unfold Ui.loadChatModels. ui_ops.
  rewrite Hc, Hconn, Hload.
  cbn [negb fst snd app Ui.models_client Ui.set_chatModelsListLoading].
  rewrite Hc, Hres. cbn [fst snd app].
  destruct (chat_models_normal (Ui.raw_models res)) as [Hn Hl].
  eexists. exists (Ui.chat_models (Ui.raw_models res)).
  split; [reflexivity|]. split; [reflexivity|]. split; [reflexivity|].
  split; [exact Hc|]. split; [exact Hconn|].
  split; [apply chat_models_entries|].
  split; [exact Hn|]. split; [exact Hl|].
  intros Hnone. unfold Ui.raw_models.
  destruct (get res (lit "models")) as [| |b|n|s|items|o]; try reflexivity.
  exfalso. exact (Hnone items eq_refl).
Qed.

Lemma X21_loadChatModels_normalizes_witness :
  exists st',
    Ui.loadChatModels (idle_models example_gateway None)
    = ([(lit "models.list", VObj [])], st', inr tt)
    /\ Ui.chatModelsList st'
       = Some [{| Ui.provider := lit "openai"; Ui.model_id := lit "gpt";
                  Ui.model_name := None |}]
    /\ Ui.chatModelsListLoading st' = false.
Proof.
  destruct (X21_loadChatModels_normalizes (idle_models example_gateway None)
              example_gateway _ eq_refl eq_refl eq_refl eq_refl)
    as (st' & models & Hrun & Hlist & Hflag & _ & _ & Hmodels & _).
  exists st'. split; [exact Hrun|]. split; [|exact Hflag].
  rewrite Hlist, Hmodels. reflexivity.
Defined.

(** X22: [loadChatModels] has no [catch]: when the [models.list] request
    fails its promise is rejected with the error of the gateway, the list of
    models is kept as it was, and the loading flag is still reset to
    false. *)
Theorem X22_loadChatModels_rejects (st : Ui.ChatModelsListState)
    (c : Ui.GatewayBrowserClient) (e : thrown) :
  Ui.models_client st = Some c -> Ui.models_connected st = true ->
  Ui.chatModelsListLoading st = false ->
  Ui.request_models_list c (VObj []) = inl e ->
  exists st',
    Ui.loadChatModels st = ([(lit "models.list", VObj [])], st', inl e)
    /\ Ui.chatModelsList st' = Ui.chatModelsList st
    /\ Ui.chatModelsListLoading st' = false.
Proof.
  intros Hc Hconn Hload Hres. unfold Ui.loadChatModels. ui_ops.
  rewrite Hc, Hconn, Hload.
  cbn [negb fst snd app Ui.models_client Ui.set_chatModelsListLoading].
  rewrite Hc, Hres. cbn [fst snd app].
  eexists. split; [reflexivity|]. split; reflexivity.
Qed.

Lemma X22_loadChatModels_rejects_witness :
  exists st',
    Ui.loadChatModels (idle_models (failing_gateway (lit "offline")) (Some []))
    = ([(lit "models.list", VObj [])], st',
       inl (ThrownPrimitive (lit "offline")))
    /\ Ui.chatModelsList st' = Some []
    /\ Ui.chatModelsListLoading st' = false.
Proof.
  exact (X22_loadChatModels_rejects
           (idle_models (failing_gateway (lit "offline")) (Some []))
           (failing_gateway (lit "offline")) (ThrownPrimitive (lit "offline"))
           eq_refl eq_refl eq_refl eq_refl).
Defined.
